(** * jimicup: the keep-alive streaming worker (src/worker.js)

    A shallow embedding of the Cloudflare worker that proxies the Gemini
    API.  The development follows the source file top-down:

    - [Js]       the fragments of the JavaScript platform the worker calls
                 (strings, JSON.stringify, URLSearchParams, Headers);
    - [Worker]   the worker's own functions: [prepareTargetUrl],
                 [processApiRequest], [handleKeepAliveStream] and the two
                 callbacks of its TransformStream;
    - theorems about the frames the client observes.

    Strings are byte strings holding the UTF-8 form of the JavaScript
    string, which is what [TextEncoder.encode] puts on the wire. *)

From Stdlib Require Import String Ascii List ZArith Bool Lia DecimalString.
Import ListNotations.
Open Scope string_scope.

Set Warnings "-register-all".

(* ================================================================== *)
(** ** Platform fragments *)
(* ================================================================== *)

Module Js.

(** *** Strings *)

Fixpoint bytes (l : list nat) : string :=
  match l with
  | [] => EmptyString
  | n :: rest => String (ascii_of_nat n) (bytes rest)
  end.

Fixpoint rev (s : string) : string :=
  match s with
  | EmptyString => EmptyString
  | String c rest => rev rest ++ String c EmptyString
  end.

Fixpoint drop (n : nat) (s : string) : string :=
  match n, s with
  | O, _ => s
  | S _, EmptyString => EmptyString
  | S n', String _ rest => drop n' rest
  end.

(** [String.prototype.includes]: [sub] occurs somewhere in [s]. *)
Fixpoint includes (s sub : string) : bool :=
  if String.prefix sub s then true
  else match s with
       | EmptyString => false
       | String _ rest => includes rest sub
       end.

(** [String.prototype.split] with a one-character separator. *)
Fixpoint split (sep : ascii) (s : string) : list string :=
  match s with
  | EmptyString => [EmptyString]
  | String c rest =>
      if Ascii.eqb c sep then EmptyString :: split sep rest
      else match split sep rest with
           | [] => [String c EmptyString]
           | tok :: toks => String c tok :: toks
           end
  end.

(** [String.prototype.replace] with a string pattern: only the first
    occurrence is replaced. *)
Fixpoint replace (s pat rep : string) : string :=
  if String.prefix pat s then rep ++ drop (String.length pat) s
  else match s with
       | EmptyString => EmptyString
       | String c rest => String c (replace rest pat rep)
       end.

(** The code points ECMAScript calls WhiteSpace or LineTerminator, in
    UTF-8: TAB LF VT FF CR SP, U+00A0, U+1680, U+2000..U+200A, U+2028,
    U+2029, U+202F, U+205F, U+3000 and U+FEFF. *)
Definition white_space : list string :=
  map bytes
    [ [9]; [10]; [11]; [12]; [13]; [32]; [194; 160]; [225; 154; 128];
      [226; 128; 128]; [226; 128; 129]; [226; 128; 130]; [226; 128; 131];
      [226; 128; 132]; [226; 128; 133]; [226; 128; 134]; [226; 128; 135];
      [226; 128; 136]; [226; 128; 137]; [226; 128; 138];
      [226; 128; 168]; [226; 128; 169]; [226; 128; 175]; [226; 129; 159];
      [227; 128; 128]; [239; 187; 191] ].

(** Removes one leading element of [seqs] from [s], if there is one. *)
Fixpoint strip_one (seqs : list string) (s : string) : option string :=
  match seqs with
  | [] => None
  | w :: more =>
      if String.prefix w s then Some (drop (String.length w) s)
      else strip_one more s
  end.

Fixpoint strip_all (fuel : nat) (seqs : list string) (s : string) : string :=
  match fuel with
  | O => s
  | S fuel' =>
      match strip_one seqs s with
      | Some rest => strip_all fuel' seqs rest
      | None => s
      end
  end.

Definition trimStart (s : string) : string :=
  strip_all (String.length s) white_space s.

Definition trimEnd (s : string) : string :=
  rev (strip_all (String.length s) (map rev white_space) (rev s)).

(** [String.prototype.trim]. *)
Definition trim (s : string) : string := trimEnd (trimStart s).

(** [Boolean(s)] for a string: the empty string is the only falsy one. *)
Definition Boolean (s : string) : bool :=
  match s with EmptyString => false | _ => true end.

(** [String(n)] for an integral number. *)
Definition of_number (n : Z) : string := NilZero.string_of_int (Z.to_int n).

Definition hex_digit (n : nat) : ascii :=
  ascii_of_nat (if Nat.ltb n 10 then 48 + n else 55 + n).

Definition hex_digit_lower (n : nat) : ascii :=
  ascii_of_nat (if Nat.ltb n 10 then 48 + n else 87 + n).

(** *** JSON values and JSON.stringify *)

(** Numbers are the integral ones; objects list their members in
    property order. *)
Inductive JSON : Type :=
| JNull
| JBool (b : bool)
| JNumber (n : Z)
| JString (s : string)
| JArray (items : list JSON)
| JObject (members : list (string * JSON)).

(** QuoteJSONString, one character at a time. *)
Definition escape_char (c : ascii) : string :=
  let n := nat_of_ascii c in
  if Nat.eqb n 8 then "\b"
  else if Nat.eqb n 9 then "\t"
  else if Nat.eqb n 10 then "\n"
  else if Nat.eqb n 12 then "\f"
  else if Nat.eqb n 13 then "\r"
  else if Nat.eqb n 34 then "\" ++ String c EmptyString
  else if Nat.eqb n 92 then "\\"
  else if Nat.ltb n 32 then
    "\u00" ++ String (hex_digit_lower (n / 16))
                (String (hex_digit_lower (n mod 16)) EmptyString)
  else String c EmptyString.

Fixpoint escape (s : string) : string :=
  match s with
  | EmptyString => EmptyString
  | String c rest => escape_char c ++ escape rest
  end.

Definition dquote : string := String (ascii_of_nat 34) EmptyString.

Definition quote (s : string) : string := dquote ++ escape s ++ dquote.

Fixpoint stringify (v : JSON) : string :=
  match v with
  | JNull => "null"
  | JBool true => "true"
  | JBool false => "false"
  | JNumber n => of_number n
  | JString s => quote s
  | JArray items =>
      "[" ++
      (fix elements (l : list JSON) : string :=
         match l with
         | [] => EmptyString
         | x :: rest =>
             match rest with
             | [] => stringify x
             | _ :: _ => stringify x ++ "," ++ elements rest
             end
         end) items
      ++ "]"
  | JObject members =>
      "{" ++
      (fix properties (l : list (string * JSON)) : string :=
         match l with
         | [] => EmptyString
         | (k, x) :: rest =>
             match rest with
             | [] => quote k ++ ":" ++ stringify x
             | _ :: _ => quote k ++ ":" ++ stringify x ++ "," ++ properties rest
             end
         end) members
      ++ "}"
  end.

(** *** URLSearchParams *)

Definition URLSearchParams : Type := list (string * string).

(** [get]: the value of the first pair named [name], null when absent. *)
Fixpoint get (params : URLSearchParams) (name : string) : option string :=
  match params with
  | [] => None
  | (n, v) :: rest => if String.eqb n name then Some v else get rest name
  end.

Definition without (name : string) (params : URLSearchParams) : URLSearchParams :=
  filter (fun p => negb (String.eqb (fst p) name)) params.

(** [set]: the first pair named [name] takes [value] and the other pairs
    of that name are removed; a new pair is appended when there is none. *)
Fixpoint set (params : URLSearchParams) (name value : string) : URLSearchParams :=
  match params with
  | [] => [(name, value)]
  | (n, v) :: rest =>
      if String.eqb n name then (name, value) :: without name rest
      else (n, v) :: set rest name value
  end.

(** The application/x-www-form-urlencoded byte serializer. *)
Definition urlencode_byte (c : ascii) : string :=
  let n := nat_of_ascii c in
  if Nat.eqb n 32 then "+"
  else if Nat.eqb n 42 || Nat.eqb n 45 || Nat.eqb n 46 || Nat.eqb n 95
          || (Nat.leb 48 n && Nat.leb n 57)
          || (Nat.leb 65 n && Nat.leb n 90)
          || (Nat.leb 97 n && Nat.leb n 122)
  then String c EmptyString
  else "%" ++ String (hex_digit (n / 16)) (String (hex_digit (n mod 16)) EmptyString).

Fixpoint urlencode (s : string) : string :=
  match s with
  | EmptyString => EmptyString
  | String c rest => urlencode_byte c ++ urlencode rest
  end.

(** [URLSearchParams.prototype.toString]. *)
Fixpoint toString (params : URLSearchParams) : string :=
  match params with
  | [] => EmptyString
  | (n, v) :: rest =>
      match rest with
      | [] => urlencode n ++ "=" ++ urlencode v
      | _ :: _ => urlencode n ++ "=" ++ urlencode v ++ "&" ++ toString rest
      end
  end.

(** A parsed URL: the two components the worker reads.  [searchParams]
    is the live object of the URL, so writing it changes the URL. *)
Record URL : Type := mkURL {
  pathname : string;
  searchParams : URLSearchParams
}.

(** *** Headers *)

Definition Headers : Type := list (string * string).

Definition lower_char (c : ascii) : ascii :=
  let n := nat_of_ascii c in
  if Nat.leb 65 n && Nat.leb n 90 then ascii_of_nat (n + 32) else c.

Fixpoint toLowerCase (s : string) : string :=
  match s with
  | EmptyString => EmptyString
  | String c rest => String (lower_char c) (toLowerCase rest)
  end.

(** Header names compare without case; the object keeps them lower-cased. *)
Fixpoint headers_set (h : Headers) (name value : string) : Headers :=
  match h with
  | [] => [(toLowerCase name, value)]
  | (n, v) :: rest =>
      if String.eqb n (toLowerCase name)
      then (n, value) :: without (toLowerCase name) rest
      else (n, v) :: headers_set rest name value
  end.

Definition headers_get (h : Headers) (name : string) : option string :=
  get h (toLowerCase name).

(** [new Headers(init)] and [Object.entries(o).forEach(([k, v]) => h.set(k, v))]. *)
Definition headers_set_all (h : Headers) (entries : list (string * string)) : Headers :=
  fold_left (fun acc kv => headers_set acc (fst kv) (snd kv)) entries h.

Definition new_Headers (init : list (string * string)) : Headers :=
  headers_set_all [] init.

(** *** Math.random

    A draw is a fraction [numer / denom] of [0, 1); with it
    [Math.floor(Math.random() * n)] is an integer division. *)
Record Random : Type := mkRandom { numer : Z; denom : Z }.

Definition unit_interval (r : Random) : Prop := (0 <= numer r < denom r)%Z.

Definition floor_times (r : Random) (n : nat) : Z :=
  (numer r * Z.of_nat n / denom r)%Z.

(** [a[i]] for an array of strings, as a string: an index outside the
    array reads [undefined]. *)
Definition index (a : list string) (i : Z) : string :=
  if (i <? 0)%Z then "undefined"
  else match nth_error a (Z.to_nat i) with
       | Some x => x
       | None => "undefined"
       end.

(** [String.prototype.endsWith]. *)
Definition endsWith (s suffix : string) : bool :=
  String.prefix (rev suffix) (rev s).

(** No character of [s] is a control character (a code below 32), such
    as a line feed or a carriage return. *)
Fixpoint no_control (s : string) : bool :=
  match s with
  | EmptyString => true
  | String c rest => Nat.leb 32 (nat_of_ascii c) && no_control rest
  end.

(** Induction on JSON values, through arrays and objects. *)
Section JSON_induction.

Variable P : JSON -> Prop.
Hypothesis P_null : P JNull.
Hypothesis P_bool : forall b, P (JBool b).
Hypothesis P_number : forall n, P (JNumber n).
Hypothesis P_string : forall s, P (JString s).
Hypothesis P_array : forall items, Forall P items -> P (JArray items).
Hypothesis P_object :
  forall members, Forall (fun kv => P (snd kv)) members -> P (JObject members).

Fixpoint JSON_induction (v : JSON) : P v :=
  match v with
  | JNull => P_null
  | JBool b => P_bool b
  | JNumber n => P_number n
  | JString s => P_string s
  | JArray items =>
      P_array items
        ((fix each (l : list JSON) : Forall P l :=
            match l with
            | [] => Forall_nil P
            | x :: rest => Forall_cons x (JSON_induction x) (each rest)
            end) items)
  | JObject members =>
      P_object members
        ((fix each (l : list (string * JSON)) : Forall (fun kv => P (snd kv)) l :=
            match l with
            | [] => Forall_nil _
            | kv :: rest =>
                Forall_cons kv (JSON_induction (snd kv)) (each rest)
            end) members)
  end.

End JSON_induction.

(** The character [c] occurs in [s]. *)
Fixpoint occurs (c : ascii) (s : string) : bool :=
  match s with
  | EmptyString => false
  | String c' rest => Ascii.eqb c' c || occurs c rest
  end.

End Js.

(* ================================================================== *)
(** ** The worker *)
(* ================================================================== *)

Module Worker.
Import Js.

Definition TARGET_HOST : string := "generativelanguage.googleapis.com".

Definition CORS_HEADERS : list (string * string) :=
  [ ("Access-Control-Allow-Origin", "*");
    ("Access-Control-Allow-Methods", "GET, POST, OPTIONS");
    ("Access-Control-Allow-Headers", "Content-Type, Authorization") ].

(** *** prepareTargetUrl

    The function returns the target URL; [params.set] writes through to
    the URL object it was given, so the model also returns that object
    as the call leaves it. *)
Definition prepareTargetUrl (random : Random) (url : URL) : string * URL :=
  let params := searchParams url in
  let apiKeys := get params "key" in
  let params :=
    match apiKeys with
    | Some keys =>
        if Boolean keys && includes keys "," then
          let keyArray := filter Boolean (map trim (split "," keys)) in
          if Nat.ltb 0 (List.length keyArray) then
            let randomKey :=
              index keyArray (floor_times random (List.length keyArray)) in
            set params "key" randomKey
          else params
        else params
    | None => params
    end in
  ("https://" ++ TARGET_HOST ++ pathname url ++ "?" ++ toString params,
   mkURL (pathname url) params).

(** *** What the platform hands to the worker *)

(** A promise that has settled; a rejection carries [error.message]. *)
Inductive Settled (A : Type) : Type :=
| Fulfilled (value : A)
| Rejected (message : string).
Arguments Fulfilled {A} value.
Arguments Rejected {A} message.

(** The upstream response: the status line, the content-type header and
    what each way of consuming the body yields.  [chunks] are the decoded
    chunks the body reader delivers; [failure] is the error of the read
    that follows them, when the body breaks off instead of ending. *)
Record Response : Type := mkResponse {
  status : Z;
  statusText : string;
  content_type : option string;
  text : Settled string;
  json : Settled JSON;
  chunks : list string;
  failure : option string
}.

Definition ok (response : Response) : bool :=
  (200 <=? status response)%Z && (status response <=? 299)%Z.

(** The inbound request.  [body] is [None] for a null body, else the
    outcome of [request.clone().arrayBuffer()]. *)
Record Request : Type := mkRequest {
  method : string;
  url : URL;
  headers : Headers;
  body : option (Settled string)
}.

Record ForwardRequest : Type := mkForward {
  forward_url : string;
  forward_method : string;
  forward_headers : Headers;
  forward_body : option string
}.

Record Platform : Type := mkPlatform {
  Math_random : Random;
  fetch : ForwardRequest -> Settled Response
}.

(** *** Asynchronous code

    An async function is a tree of the steps it takes: synchronous
    effects on the state it shares with the stream callbacks, calls on
    the stream writer, and [Await], where it is suspended and other
    callbacks may run. *)
Inductive Effect : Type :=
| OnComplete
| ClearInterval
| ConsoleError (label : string)
| ReleaseLock.

Inductive Async : Type :=
| Return
| Throw (message : string)
| Await (k : Async)
| Do (e : Effect) (k : Async)
| Write (chunk : string) (k : Settled unit -> Async)
| Close (k : Settled unit -> Async).

(** [p; q] *)
Fixpoint seq (p q : Async) : Async :=
  match p with
  | Return => q
  | Throw e => Throw e
  | Await k => Await (seq k q)
  | Do e k => Do e (seq k q)
  | Write c k => Write c (fun r => seq (k r) q)
  | Close k => Close (fun r => seq (k r) q)
  end.

(** [try { p } catch (error) { handler error }] *)
Fixpoint try_catch (p : Async) (handler : string -> Async) : Async :=
  match p with
  | Return => Return
  | Throw e => handler e
  | Await k => Await (try_catch k handler)
  | Do e k => Do e (try_catch k handler)
  | Write c k => Write c (fun r => try_catch (k r) handler)
  | Close k => Close (fun r => try_catch (k r) handler)
  end.

(** [try { p } finally { finalizer }]: the finalizer runs on both exits
    and an exception of [p] is thrown again after it. *)
Fixpoint try_finally (p finalizer : Async) : Async :=
  match p with
  | Return => finalizer
  | Throw e => seq finalizer (Throw e)
  | Await k => Await (try_finally k finalizer)
  | Do e k => Do e (try_finally k finalizer)
  | Write c k => Write c (fun r => try_finally (k r) finalizer)
  | Close k => Close (fun r => try_finally (k r) finalizer)
  end.

(** [await promise] for a promise of the platform, and [await] on the
    two writer calls. *)
Definition await {A : Type} (promise : Settled A) (k : A -> Async) : Async :=
  Await (match promise with
         | Fulfilled value => k value
         | Rejected e => Throw e
         end).

Definition await_write (chunk : string) (k : Async) : Async :=
  Write chunk (fun r => await r (fun _ => k)).

Definition await_close (k : Async) : Async :=
  Close (fun r => await r (fun _ => k)).

(** *** Frames *)

Definition LF : string := String (ascii_of_nat 10) EmptyString.

(** [`data: ${payload}\n\n`] *)
Definition frame (payload : string) : string := "data: " ++ payload ++ LF ++ LF.

Definition DONE : string := frame "[DONE]".

Definition heartbeatData : JSON :=
  JObject
    [ ("candidates",
       JArray
         [ JObject
             [ ("content",
                JObject [ ("parts", JArray [ JObject [ ("text", JString (LF ++ LF)) ] ]);
                          ("role", JString "model") ]);
               ("finishReason", JString "STOP");
               ("index", JNumber 0);
               ("safetyRatings", JArray []) ] ]);
      ("usageMetadata",
       JObject [ ("promptTokenCount", JNumber 0);
                 ("candidatesTokenCount", JNumber 0);
                 ("totalTokenCount", JNumber 0) ]) ].

Definition heartbeat : string := frame (stringify heartbeatData).

Definition apiErrorData (response : Response) (errorText : string) : JSON :=
  JObject
    [ ("error",
       JObject
         [ ("message",
            JString ("API Error: " ++ of_number (status response) ++ " "
                     ++ statusText response));
           ("details", JString errorText) ]) ].

Definition internalErrorData (message : string) : JSON :=
  JObject
    [ ("error",
       JObject [ ("message", JString "Worker internal error");
                 ("details", JString message) ]) ].

(** *** processApiRequest *)

(** The relay loop of the event-stream branch: one [reader.read()] per
    turn, until the body is done or a read fails. *)
Fixpoint relay (chunks : list string) (failure : option string) : Async :=
  match chunks with
  | value :: rest => Await (await_write value (relay rest failure))
  | [] =>
      match failure with
      | None => Await Return
      | Some e => Await (Throw e)
      end
  end.

Definition contentType (response : Response) : string :=
  match content_type response with
  | Some value => value
  | None => EmptyString
  end.

(** Lines 180 to 214: the branch on the response. *)
Definition relayPayload (response : Response) : Async :=
  if negb (ok response) then
    await (text response) (fun errorText =>
    await_write (frame (stringify (apiErrorData response errorText))) Return)
  else
    if includes (contentType response) "text/event-stream" then
      try_finally (relay (chunks response) (failure response))
                  (Do ReleaseLock Return)
    else
      await (json response) (fun data =>
      await_write (frame (stringify data)) Return).

(** Lines 176 to 217: what the try block does once the upstream call
    has resolved. *)
Definition relayResponse (response : Response) : Async :=
  Do OnComplete (Do ClearInterval
    (seq (relayPayload response) (await_write DONE Return))).

(** The catch block. *)
Definition onError (message : string) : Async :=
  Do OnComplete (Do ClearInterval (Do (ConsoleError "KEEPALIVE mode error:")
    (await_write (frame (stringify (internalErrorData message))) Return))).

(** The finally block. *)
Definition closeWriter : Async :=
  try_catch (await_close Return)
            (fun closeError => Do (ConsoleError "Error closing writer:") Return).

Definition forwardRequest (platform : Platform) (request : Request)
    (requestBody : option string) : ForwardRequest :=
  let originalUrl := url request in
  let nonStreamingUrl :=
    mkURL (replace (pathname originalUrl) ":streamGenerateContent" ":generateContent")
          (searchParams originalUrl) in
  let targetUrl := fst (prepareTargetUrl (Math_random platform) nonStreamingUrl) in
  mkForward targetUrl (method request) (headers request) requestBody.

Definition processApiRequest (platform : Platform) (request : Request) : Async :=
  try_finally
    (try_catch
       (let send requestBody :=
          await (fetch platform (forwardRequest platform request requestBody))
                (fun response => relayResponse response) in
        match body request with
        | Some buffered => await buffered (fun requestBody => send (Some requestBody))
        | None => send None
        end)
       onError)
    closeWriter.

(** *** The stream and the state the callbacks share

    [readable] is what has been enqueued for the client, oldest first;
    every chunk carries the callback that produced it.  [refused] lists
    the chunks whose write or enqueue the stream turned down. *)
Inductive Source : Type := FromHeartbeat | FromWriter.

Definition Chunk : Type := (Source * string)%type.

Inductive StreamState : Type :=
| Writable
| Errored (reason : string)
| Closed.

Record State : Type := mkState {
  isProcessingComplete : bool;
  heartbeatInterval : bool;       (* the interval is still scheduled *)
  stream : StreamState;
  readable : list Chunk;
  refused : list Chunk;
  console : list string
}.

Definition set_complete (s : State) : State :=
  mkState true (heartbeatInterval s) (stream s) (readable s) (refused s) (console s).

Definition clearInterval (s : State) : State :=
  mkState (isProcessingComplete s) false (stream s) (readable s) (refused s) (console s).

Definition log (label : string) (s : State) : State :=
  mkState (isProcessingComplete s) (heartbeatInterval s) (stream s) (readable s)
          (refused s) (console s ++ [label]).

(** The message of the TypeError an operation on a finished stream is
    rejected with. *)
Definition closed_message : string := "Invalid state: the stream is closed or errored".

(** Putting a chunk on the stream: it is queued for the client while the
    stream is open, and turned down once the client has cancelled (with
    the reason of the cancellation) or the stream is closed. *)
Definition put (c : Chunk) (s : State) : Settled unit * State :=
  match stream s with
  | Writable =>
      (Fulfilled tt,
       mkState (isProcessingComplete s) (heartbeatInterval s) Writable
               (readable s ++ [c]) (refused s) (console s))
  | Errored reason =>
      (Rejected reason,
       mkState (isProcessingComplete s) (heartbeatInterval s) (stream s)
               (readable s) (refused s ++ [c]) (console s))
  | Closed =>
      (Rejected closed_message,
       mkState (isProcessingComplete s) (heartbeatInterval s) (stream s)
               (readable s) (refused s ++ [c]) (console s))
  end.

(** [writer.write(encoder.encode(chunk))] *)
Definition writer_write (chunk : string) (s : State) : Settled unit * State :=
  put (FromWriter, chunk) s.

(** [controller.enqueue(encoder.encode(chunk))] *)
Definition controller_enqueue (chunk : string) (s : State) : Settled unit * State :=
  put (FromHeartbeat, chunk) s.

(** [writer.close()] *)
Definition writer_close (s : State) : Settled unit * State :=
  match stream s with
  | Writable =>
      (Fulfilled tt,
       mkState (isProcessingComplete s) (heartbeatInterval s) Closed
               (readable s) (refused s) (console s))
  | Errored _ => (Rejected closed_message, s)
  | Closed => (Rejected closed_message, s)
  end.

Definition effect (e : Effect) (s : State) : State :=
  match e with
  | OnComplete => set_complete s
  | ClearInterval => clearInterval s
  | ConsoleError label => log label s
  | ReleaseLock => s
  end.

(** Runs an async function up to its next suspension. *)
Fixpoint run (p : Async) (s : State) : Async * State :=
  match p with
  | Return => (p, s)
  | Throw _ => (p, s)
  | Await _ => (p, s)
  | Do e k => run k (effect e s)
  | Write chunk k => let (r, s') := writer_write chunk s in run (k r) s'
  | Close k => let (r, s') := writer_close s in run (k r) s'
  end.

(** *** handleKeepAliveStream

    The constructor of the TransformStream calls [start] at once, so the
    interval is scheduled, and [heartbeatInterval] holds its id, before
    [processApiRequest] is called with that id: the callback's
    [clearInterval] and the function's clear the same interval. *)

(** The interval callback of [start]. *)
Definition onHeartbeat (s : State) : State :=
  if negb (isProcessingComplete s) then
    match controller_enqueue heartbeat s with
    | (Fulfilled _, s') => s'
    | (Rejected _, s') => clearInterval (log "Heartbeat error:" s')
    end
  else s.

(** The [cancel] callback. *)
Definition onCancel (s : State) : State :=
  log "Client disconnected:" (set_complete (clearInterval s)).

(** The response returned to the client; its body is the readable side
    of the stream. *)
Record StreamResponse : Type := mkStreamResponse {
  response_status : Z;
  response_headers : Headers
}.

(** A request in flight: what is left of [processApiRequest] and the
    shared state. *)
Definition Adapter : Type := (Async * State)%type.

Definition opened : State := mkState false true Writable [] [] [].

Definition handleKeepAliveStream (platform : Platform) (request : Request)
    : StreamResponse * Adapter :=
  let adapter := run (processApiRequest platform request) opened in
  let responseHeaders :=
    new_Headers [ ("Content-Type", "text/event-stream");
                  ("Cache-Control", "no-cache");
                  ("Connection", "keep-alive") ] in
  let responseHeaders := headers_set_all responseHeaders CORS_HEADERS in
  (mkStreamResponse 200 responseHeaders, adapter).

(** *** The event loop

    After [handleKeepAliveStream] has returned, three things can happen,
    in any order: the interval fires, the client cancels the stream, or
    the promise [processApiRequest] awaits settles and the function
    goes on to its next suspension.  A cleared interval does not fire.
    The stream calls [cancel] when the client cancels a stream that is
    neither closed nor cancelled yet, and from then on turns down every
    write, with the client's reason. *)
Inductive Event : Type :=
| Tick
| Cancel (reason : string)
| Resume.

Definition step (ev : Event) (a : Adapter) : Adapter :=
  let (task, s) := a in
  match ev with
  | Tick => if heartbeatInterval s then (task, onHeartbeat s) else a
  | Cancel reason =>
      match stream s with
      | Writable =>
          let s' := onCancel s in
          (task,
           mkState (isProcessingComplete s') (heartbeatInterval s') (Errored reason)
                   (readable s') (refused s') (console s'))
      | _ => a
      end
  | Resume =>
      match task with
      | Await k => run k s
      | _ => a
      end
  end.

Definition exec (events : list Event) (a : Adapter) : Adapter :=
  fold_left (fun acc ev => step ev acc) events a.

(** [processApiRequest] has run to its end; [Throw] is the rejection of
    the promise it returned, which nothing handles. *)
Definition settled (a : Adapter) : bool :=
  match fst a with
  | Return => true
  | Throw _ => true
  | _ => false
  end.

Definition escaped (a : Adapter) : option string :=
  match fst a with
  | Throw e => Some e
  | _ => None
  end.

(** *** The handlers without a stream, and the entry point *)

(** A response with an ordinary body: [plain_body] is [None] for a null
    body, else the chunks of the body stream and the error it breaks off
    with, if any. *)
Record PlainResponse : Type := mkPlainResponse {
  plain_status : Z;
  plain_statusText : string;
  plain_headers : Headers;
  plain_body : option (list string * option string)
}.

(** What [fetch] resolves with: the response and the whole of its header
    list, which the pass-through copies. *)
Record Fetched : Type := mkFetched {
  response_of : Response;
  headers_of : Headers
}.

(** The globals of the worker: the [KEEPALIVE] variable, if it is
    defined, the draw of [Math.random] and the network. *)
Record Runtime : Type := mkRuntime {
  KEEPALIVE : option string;
  runtime_random : Random;
  runtime_fetch : ForwardRequest -> Settled Fetched
}.

Definition KEEPALIVE_ENABLED (runtime : Runtime) : bool :=
  match KEEPALIVE runtime with
  | Some value => negb (String.eqb value "false")
  | None => true
  end.

Definition platform_of (runtime : Runtime) : Platform :=
  mkPlatform (runtime_random runtime)
    (fun forwarded =>
       match runtime_fetch runtime forwarded with
       | Fulfilled fetched => Fulfilled (response_of fetched)
       | Rejected e => Rejected e
       end).

(** [handleOptions] *)
Definition handleOptions : PlainResponse :=
  mkPlainResponse 204 EmptyString (new_Headers CORS_HEADERS) None.

(** [handleStandardProxy].  The body of the request is handed on as it
    is; a body that cannot be read fails the call.  Nothing catches a
    rejection of [fetch]: it is the rejection of the handler. *)
Definition handleStandardProxy (runtime : Runtime) (request : Request)
    : Settled PlainResponse :=
  let targetUrl := fst (prepareTargetUrl (runtime_random runtime) (url request)) in
  let forwardRequest requestBody :=
    mkForward targetUrl (method request) (headers request) requestBody in
  let respond (outcome : Settled Fetched) :=
    match outcome with
    | Fulfilled fetched =>
        let response := response_of fetched in
        let mutableResponse :=
          mkPlainResponse (status response) (statusText response)
            (headers_set_all (headers_of fetched) CORS_HEADERS)
            (Some (chunks response, failure response)) in
        Fulfilled mutableResponse
    | Rejected e => Rejected e
    end in
  match body request with
  | None => respond (runtime_fetch runtime (forwardRequest None))
  | Some (Fulfilled content) =>
      respond (runtime_fetch runtime (forwardRequest (Some content)))
  | Some (Rejected e) => Rejected e
  end.

(** The three ways a request is served. *)
Inductive Served : Type :=
| Preflight (response : PlainResponse)
| Streamed (response : StreamResponse) (adapter : Adapter)
| Proxied (response : Settled PlainResponse).

(** The default export. *)
Module Default.

Definition fetch (runtime : Runtime) (request : Request) : Served :=
  if String.eqb (method request) "OPTIONS" then Preflight handleOptions
  else if KEEPALIVE_ENABLED runtime
          && endsWith (pathname (url request)) ":streamGenerateContent"
  then
    let (response, adapter) := handleKeepAliveStream (platform_of runtime) request in
    Streamed response adapter
  else Proxied (handleStandardProxy runtime request).

End Default.

End Worker.

(* ================================================================== *)
(** ** Observations on a request in flight *)
(* ================================================================== *)

Import Js Worker.

(** The adapter as [handleKeepAliveStream] leaves it when it returns. *)
Definition initial (platform : Platform) (request : Request) : Adapter :=
  snd (handleKeepAliveStream platform request).

Definition flag (a : Adapter) : bool := isProcessingComplete (snd a).

Definition is_cancel (ev : Event) : bool :=
  match ev with Cancel _ => true | _ => false end.

(** A schedule in which the client does not cancel. *)
Definition undisturbed (events : list Event) : Prop :=
  forallb (fun ev => negb (is_cancel ev)) events = true.

Definition from_heartbeat (c : Chunk) : bool :=
  match fst c with FromHeartbeat => true | FromWriter => false end.

Definition from_writer (c : Chunk) : bool := negb (from_heartbeat c).

Definition heartbeats (n : nat) : list Chunk := repeat (FromHeartbeat, heartbeat) n.

Definition written (frames : list string) : list Chunk := map (pair FromWriter) frames.

(** The state with [n] more heartbeats queued. *)
Definition beat (n : nat) (s : State) : State :=
  mkState (isProcessingComplete s) (heartbeatInterval s) (stream s)
          (readable s ++ heartbeats n) (refused s) (console s).

(** Runs an async function to its end with nothing interleaved: the
    exception that leaves it, if any, and the final state. *)
Fixpoint finish (p : Async) (s : State) : option string * State :=
  match p with
  | Return => (None, s)
  | Throw e => (Some e, s)
  | Await k => finish k s
  | Do e k => finish k (effect e s)
  | Write chunk k => let (r, s') := writer_write chunk s in finish (k r) s'
  | Close k => let (r, s') := writer_close s in finish (k r) s'
  end.

(** The function is suspended and the first thing it does once resumed,
    possibly after further suspensions, is [onComplete()] followed by
    [clearInterval(heartbeatInterval)]. *)
Fixpoint completes_first (p : Async) : bool :=
  match p with
  | Await k => completes_first k
  | Do OnComplete (Do ClearInterval _) => true
  | _ => false
  end.

(** The outcome of the upstream call of a request: the body is buffered
    first, and a failure to buffer it is the failure of the call. *)
Definition upstream (platform : Platform) (request : Request) : Settled Response :=
  match body request with
  | None => fetch platform (forwardRequest platform request None)
  | Some (Fulfilled buffered) =>
      fetch platform (forwardRequest platform request (Some buffered))
  | Some (Rejected e) => Rejected e
  end.

(** The payload frames a response is relayed as when consuming its body
    raises nothing: the error frame of a non-2xx response, the chunks of
    an event stream as they come, or the one frame of a JSON body. *)
Definition relayed (response : Response) : option (list string) :=
  if negb (ok response) then
    match text response with
    | Fulfilled errorText => Some [frame (stringify (apiErrorData response errorText))]
    | Rejected _ => None
    end
  else if includes (contentType response) "text/event-stream" then
    match failure response with
    | None => Some (chunks response)
    | Some _ => None
    end
  else
    match json response with
    | Fulfilled data => Some [frame (stringify data)]
    | Rejected _ => None
    end.

(** How often the completion flag goes from false to true along a
    schedule. *)
Fixpoint flips (events : list Event) (a : Adapter) : nat :=
  match events with
  | [] => 0
  | ev :: rest =>
      (if negb (flag a) && flag (step ev a) then 1 else 0) + flips rest (step ev a)
  end.

(** Reading a JSON value: [v[name]] and [v[i]]. *)
Definition member (name : string) (v : option JSON) : option JSON :=
  match v with
  | Some (JObject members) =>
      (fix find (l : list (string * JSON)) : option JSON :=
         match l with
         | [] => None
         | (k, x) :: rest => if String.eqb k name then Some x else find rest
         end) members
  | _ => None
  end.

Definition item (i : nat) (v : option JSON) : option JSON :=
  match v with
  | Some (JArray items) => nth_error items i
  | _ => None
  end.

(** [candidates[0].content.parts[0].text] of a response envelope. *)
Definition text_content (envelope : JSON) : option JSON :=
  member "text" (item 0 (member "parts" (member "content"
    (item 0 (member "candidates" (Some envelope)))))).

Definition finish_reason (envelope : JSON) : option JSON :=
  member "finishReason" (item 0 (member "candidates" (Some envelope))).

Definition usage (counter : string) (envelope : JSON) : option JSON :=
  member counter (member "usageMetadata" (Some envelope)).

(** No heartbeat follows a chunk of the writer. *)
Definition heartbeats_first (l : list Chunk) : Prop :=
  exists hs ws : list Chunk,
    l = (hs ++ ws)%list /\ forallb from_heartbeat hs = true /\ forallb from_writer ws = true.

(** What holds of a request in flight between any two callbacks.  While
    the flag is down the interval is scheduled, the stream is open, only
    heartbeats have been queued and the function is yet to announce
    completion; once it is up the interval is cleared. *)
Definition pending (a : Adapter) : Prop :=
  heartbeatInterval (snd a) = true /\
  stream (snd a) = Writable /\
  completes_first (fst a) = true /\
  forallb from_heartbeat (readable (snd a)) = true /\
  refused (snd a) = [].

Definition invariant (a : Adapter) : Prop :=
  (flag a = false -> pending a) /\
  (flag a = true -> heartbeatInterval (snd a) = false) /\
  heartbeats_first (readable (snd a)).

(** The state after the writer has queued [frames]. *)
Definition wrote (frames : list string) (s : State) : State :=
  mkState (isProcessingComplete s) (heartbeatInterval s) (stream s)
          (readable s ++ written frames) (refused s) (console s).

(** The state in which a relay that raised nothing ends: completion
    announced, the interval cleared, the payload and the done marker
    queued behind what was there, the stream closed. *)
Definition relayed_to_end (payload : list string) (s : State) : State :=
  mkState true false Closed (readable s ++ written (payload ++ [DONE]))
          (refused s) (console s).

(** *** Sample requests and upstream responses *)

Definition example_request : Request :=
  mkRequest "POST"
    (mkURL "/v1beta/models/gemini-pro:streamGenerateContent"
           [("key", " a , b "); ("alt", "sse")])
    [("content-type", "application/json")]
    (Some (Fulfilled "{}")).

Definition platform_with (outcome : Settled Response) : Platform :=
  mkPlatform (mkRandom 1 2) (fun _ => outcome).


(** Scenario A: a 200 whose body is the JSON object with [x] set to 1. *)
Definition x_is_1 : string := "{" ++ quote "x" ++ ":1}".

Definition json_200 : Response :=
  mkResponse 200 "OK" (Some "application/json; charset=UTF-8")
    (Fulfilled x_is_1) (Fulfilled (JObject [("x", JNumber 1)]))
    [x_is_1] None.

(** A 200 that is itself an event stream of two events. *)
Definition event_stream_200 : Response :=
  mkResponse 200 "OK" (Some "text/event-stream")
    (Fulfilled (frame "1" ++ frame "2")) (Rejected "Unexpected token d in JSON")
    [frame "1"; frame "2"] None.

(** URLs for the target builder: the key is a list of two, or absent. *)
Definition two_keys_url : URL :=
  mkURL "/v1beta/models/gemini-pro:generateContent" [("key", "a,b"); ("alt", "json")].

Definition no_key_url : URL :=
  mkURL "/v1beta/models" [("pageSize", "5 0"); ("alt", "json")].

(** The terminal sequence of one payload frame and the done marker, after
    the heartbeats, on a closed stream. *)
Definition one_payload_then_done (a : Adapter) : Prop :=
  exists (hs : list Chunk) (payload : string),
    readable (snd a) = (hs ++ written [payload; DONE])%list /\
    forallb from_heartbeat hs = true /\
    stream (snd a) = Closed.


(** A chunk the interval callback may have queued. *)
Definition genuine (c : Chunk) : Prop :=
  from_heartbeat c = true -> snd c = heartbeat.

(** *** Observations on the other paths *)

(** What consuming a response queues, and the exception it ends with,
    if any: the frames of [relayed] when nothing is raised; nothing and
    the error of [text()] or [json()]; or the chunks read before the read
    that fails. *)
Definition consumed (response : Response) : list string * option string :=
  if negb (ok response) then
    match text response with
    | Fulfilled errorText =>
        ([frame (stringify (apiErrorData response errorText))], None)
    | Rejected e => ([], Some e)
    end
  else if includes (contentType response) "text/event-stream" then
    (chunks response, failure response)
  else
    match json response with
    | Fulfilled data => ([frame (stringify data)], None)
    | Rejected e => ([], Some e)
    end.

(** The frame of the catch block. *)
Definition internalErrorFrame (message : string) : string :=
  frame (stringify (internalErrorData message)).

(** Everything the writer queues for a request the client does not
    cancel. *)
Definition terminal_frames (platform : Platform) (request : Request) : list string :=
  match upstream platform request with
  | Rejected e => [internalErrorFrame e]
  | Fulfilled response =>
      (fst (consumed response) ++
       [ match snd (consumed response) with
         | None => DONE
         | Some e => internalErrorFrame e
         end ])%list
  end.

(** Whether the catch block runs for a request the client does not
    cancel. *)
Definition fails (platform : Platform) (request : Request) : bool :=
  match upstream platform request with
  | Rejected _ => true
  | Fulfilled response =>
      match snd (consumed response) with
      | None => false
      | Some _ => true
      end
  end.

(** On every path to its end the function calls [writer.close()]. *)
Fixpoint closes (p : Async) : Prop :=
  match p with
  | Return => False
  | Throw _ => False
  | Await k => closes k
  | Do _ k => closes k
  | Write _ k => forall r, closes (k r)
  | Close _ => True
  end.

Definition open_stream (s : State) : bool :=
  match stream s with Writable => true | _ => false end.

(** The entries of a parameter list that are named [key]. *)
Definition key_entries (params : URLSearchParams) : URLSearchParams :=
  filter (fun p => String.eqb (fst p) "key") params.

(** The headers of the response a request is served with, when the
    handler returns one. *)
Definition served_headers (served : Served) : option Headers :=
  match served with
  | Preflight response => Some (plain_headers response)
  | Streamed response _ => Some (response_headers response)
  | Proxied (Fulfilled response) => Some (plain_headers response)
  | Proxied (Rejected _) => None
  end.

(** The upstream call of the pass-through. *)
Definition proxy_call (runtime : Runtime) (request : Request) : Settled Fetched :=
  let forwarded requestBody :=
    mkForward (fst (prepareTargetUrl (runtime_random runtime) (url request)))
              (method request) (headers request) requestBody in
  match body request with
  | None => runtime_fetch runtime (forwarded None)
  | Some (Fulfilled content) => runtime_fetch runtime (forwarded (Some content))
  | Some (Rejected e) => Rejected e
  end.

(** A header name that is one of the three CORS headers, in any case. *)
Definition cors_name (name : string) : bool :=
  existsb (fun kv => String.eqb (toLowerCase (fst kv)) (toLowerCase name)) CORS_HEADERS.

(** *** More sample data *)

Definition broken_json_200 : Response :=
  mkResponse 200 "OK" (Some "application/json")
    (Fulfilled "<html>") (Rejected "Unexpected token < in JSON at position 0")
    ["<html>"] None.

Definition broken_stream_200 : Response :=
  mkResponse 200 "OK" (Some "text/event-stream")
    (Rejected "network error") (Rejected "network error")
    [frame "1"] (Some "network error").

Definition example_runtime (keepalive : option string) (outcome : Settled Fetched)
    : Runtime :=
  mkRuntime keepalive (mkRandom 1 2) (fun _ => outcome).

Definition fetched_404 : Fetched :=
  mkFetched
    (mkResponse 404 "Not Found" (Some "application/json")
       (Fulfilled "{}") (Fulfilled (JObject [])) ["{}"] None)
    [ ("content-type", "application/json");
      ("access-control-allow-origin", "https://example.com");
      ("x-request-id", "42") ].

Definition models_request : Request :=
  mkRequest "GET" (mkURL "/v1beta/models" [("key", "k1")]) [] None.

(* ================================================================== *)
(** ** Running async code *)
(* ================================================================== *)

Lemma settled_finish (a : Adapter) :
  settled a = true -> finish (fst a) (snd a) = (escaped a, snd a).
Proof.
  destruct a as [task s]; unfold settled, escaped; simpl.
  destruct task; simpl; intro H; try discriminate; reflexivity.
Qed.

Lemma finish_run (p : Async) :
  forall s, finish (fst (run p s)) (snd (run p s)) = finish p s.
Proof.
  induction p as [ | e | k IH | e k IH | c k IH | k IH ]; intro s; simpl;
    try reflexivity.
  - apply IH.
  - destruct (writer_write c s) as [r s']. apply IH.
  - destruct (writer_close s) as [r s']. apply IH.
Qed.

(** The laws of the three combinators. *)
Lemma finish_seq (p q : Async) :
  forall s,
    finish (seq p q) s =
    match finish p s with
    | (None, s') => finish q s'
    | (Some e, s') => (Some e, s')
    end.
Proof.
  induction p as [ | e | k IH | e k IH | c k IH | k IH ]; intro s; simpl;
    try reflexivity; try apply IH.
  - destruct (writer_write c s) as [r s']. apply IH.
  - destruct (writer_close s) as [r s']. apply IH.
Qed.

Lemma finish_try_catch (p : Async) (handler : string -> Async) :
  forall s,
    finish (try_catch p handler) s =
    match finish p s with
    | (None, s') => (None, s')
    | (Some e, s') => finish (handler e) s'
    end.
Proof.
  induction p as [ | e | k IH | e k IH | c k IH | k IH ]; intro s; simpl;
    try reflexivity; try apply IH.
  - destruct (writer_write c s) as [r s']. apply IH.
  - destruct (writer_close s) as [r s']. apply IH.
Qed.

Lemma finish_try_finally (p finalizer : Async) :
  forall s,
    finish (try_finally p finalizer) s =
    match finish p s with
    | (None, s') => finish finalizer s'
    | (Some e, s') =>
        match finish finalizer s' with
        | (None, s'') => (Some e, s'')
        | (Some e', s'') => (Some e', s'')
        end
    end.
Proof.
  induction p as [ | e | k IH | e k IH | c k IH | k IH ]; intro s; simpl;
    try reflexivity; try apply IH.
  - rewrite finish_seq. simpl. destruct (finish finalizer s) as [[e'|] s'']; reflexivity.
  - destruct (writer_write c s) as [r s']. apply IH.
  - destruct (writer_close s) as [r s']. apply IH.
Qed.

(** Nothing the function does resets the flag. *)
Lemma effect_flag (e : Effect) (s : State) :
  isProcessingComplete s = true -> isProcessingComplete (effect e s) = true.
Proof. destruct e; simpl; auto. Qed.

Lemma put_flag (c : Chunk) (s : State) :
  isProcessingComplete (snd (put c s)) = isProcessingComplete s.
Proof. unfold put. destruct (stream s); reflexivity. Qed.

Lemma close_flag (s : State) :
  isProcessingComplete (snd (writer_close s)) = isProcessingComplete s.
Proof. unfold writer_close. destruct (stream s); reflexivity. Qed.

Lemma run_flag (p : Async) :
  forall s, isProcessingComplete s = true ->
            isProcessingComplete (snd (run p s)) = true.
Proof.
  induction p as [ | e | k IH | e k IH | c k IH | k IH ]; intros s H; simpl; auto.
  - apply IH, effect_flag, H.
  - pose proof (put_flag (FromWriter, c) s) as Hp. unfold writer_write.
    destruct (put (FromWriter, c) s) as [r s']. apply IH. simpl in Hp. congruence.
  - pose proof (close_flag s) as Hc.
    destruct (writer_close s) as [r s']. apply IH. simpl in Hc. congruence.
Qed.

Lemma step_flag (ev : Event) (a : Adapter) :
  flag a = true -> flag (step ev a) = true.
Proof.
  destruct a as [task s]. unfold flag. simpl. intro H.
  destruct ev as [ | reason | ].
  - destruct (heartbeatInterval s); simpl; auto.
    unfold onHeartbeat. rewrite H. exact H.
  - destruct (stream s); simpl; auto.
  - destruct task; simpl; auto. apply run_flag, H.
Qed.

(** *** The invariant of a request in flight *)

Lemma exec_cons (ev : Event) (events : list Event) (a : Adapter) :
  exec (ev :: events) a = exec events (step ev a).
Proof. reflexivity. Qed.

Lemma exec_app (before after : list Event) (a : Adapter) :
  exec (before ++ after) a = exec after (exec before a).
Proof. unfold exec. apply fold_left_app. Qed.

Lemma initial_suspended (platform : Platform) (request : Request) :
  snd (initial platform request) = opened /\
  completes_first (fst (initial platform request)) = true.
Proof.
  unfold initial, handleKeepAliveStream, processApiRequest; simpl.
  destruct (body request) as [[buffered | e] | ]; simpl.
  - destruct (fetch platform _) as [response | e]; simpl; auto.
  - auto.
  - destruct (fetch platform _) as [response | e]; simpl; auto.
Qed.

Lemma heartbeats_first_all (l : list Chunk) :
  forallb from_heartbeat l = true -> heartbeats_first l.
Proof.
  intro H. exists l, []. rewrite app_nil_r. auto.
Qed.

Lemma heartbeats_first_app (l ws : list Chunk) :
  heartbeats_first l -> forallb from_writer ws = true -> heartbeats_first (l ++ ws).
Proof.
  intros (hs & ws0 & -> & Hh & Hw) H.
  exists hs, (ws0 ++ ws)%list. rewrite app_assoc. repeat split; auto.
  rewrite forallb_app, Hw, H. reflexivity.
Qed.

(** Once completion is announced the function only adds chunks of its
    own, and leaves flag and interval as they are. *)
Lemma run_completed (p : Async) :
  forall s,
    isProcessingComplete s = true -> heartbeatInterval s = false ->
    isProcessingComplete (snd (run p s)) = true /\
    heartbeatInterval (snd (run p s)) = false /\
    exists ws, readable (snd (run p s)) = (readable s ++ ws)%list /\
               forallb from_writer ws = true.
Proof.
  induction p as [ | e | k IH | e k IH | c k IH | k IH ]; intros s Hf Hi; simpl;
    try (split; [ | split ]; auto; exists []; rewrite app_nil_r; auto; fail).
  - destruct e as [ | | label | ];
      [ apply (IH (set_complete s)) | apply (IH (clearInterval s))
      | apply (IH (log label s)) | apply (IH s) ]; auto.
  - unfold writer_write, put.
    destruct (stream s) eqn:Hs.
    + destruct (IH (Fulfilled tt)
                  (mkState (isProcessingComplete s) (heartbeatInterval s) Writable
                     (readable s ++ [(FromWriter, c)]) (refused s) (console s)))
        as (H1 & H2 & ws & H3 & H4); auto.
      split; [ | split ]; auto. exists ((FromWriter, c) :: ws). simpl in H3.
      split; [ | exact H4 ].
      etransitivity; [ exact H3 | ]. rewrite <- app_assoc. reflexivity.
    + apply (IH (Rejected reason)
               (mkState (isProcessingComplete s) (heartbeatInterval s) (Errored reason)
                  (readable s) (refused s ++ [(FromWriter, c)]) (console s))); auto.
    + apply (IH (Rejected closed_message)
               (mkState (isProcessingComplete s) (heartbeatInterval s) Closed
                  (readable s) (refused s ++ [(FromWriter, c)]) (console s))); auto.
  - unfold writer_close. destruct (stream s) as [ | reason | ] eqn:Hs.
    + apply (IH (Fulfilled tt)
               (mkState (isProcessingComplete s) (heartbeatInterval s) Closed
                  (readable s) (refused s) (console s))); auto.
    + apply (IH (Rejected closed_message) s); auto.
    + apply (IH (Rejected closed_message) s); auto.
Qed.

Lemma invariant_completed (a : Adapter) :
  flag a = true -> heartbeatInterval (snd a) = false ->
  heartbeats_first (readable (snd a)) -> invariant a.
Proof.
  intros Hf Hi Ho. unfold invariant. rewrite Hf.
  split; [ discriminate | split; auto ].
Qed.

Lemma invariant_pending (a : Adapter) :
  flag a = false -> pending a -> invariant a.
Proof.
  intros Hf Hp. unfold invariant. rewrite Hf.
  split; [ auto | split; [ discriminate | ] ].
  apply heartbeats_first_all, Hp.
Qed.

Lemma resume_invariant (k : Async) (s : State) :
  isProcessingComplete s = true -> heartbeatInterval s = false ->
  heartbeats_first (readable s) -> invariant (run k s).
Proof.
  intros Hf Hi Ho.
  destruct (run_completed k s Hf Hi) as (H1 & H2 & ws & H3 & H4).
  apply invariant_completed; auto.
  rewrite H3. apply heartbeats_first_app; auto.
Qed.

Lemma step_invariant (ev : Event) (a : Adapter) :
  invariant a -> invariant (step ev a).
Proof.
  intro Hinv. pose proof Hinv as (Hp & Hc & Ho).
  destruct a as [task s]. unfold flag in Hp, Hc. simpl in Hp, Hc, Ho.
  destruct (isProcessingComplete s) eqn:Hf.
  - (* completion already announced *)
    specialize (Hc eq_refl).
    destruct ev as [ | reason | ]; simpl.
    + rewrite Hc. exact Hinv.
    + destruct (stream s); auto.
      apply invariant_completed; auto.
    + destruct task; auto. apply resume_invariant; auto.
  - (* the upstream call is still pending *)
    destruct (Hp eq_refl) as (Hi & Hs & Hk & Hh & Hr). simpl in Hi, Hs, Hk, Hh, Hr.
    destruct ev as [ | reason | ]; simpl.
    + rewrite Hi. unfold onHeartbeat, controller_enqueue, put. rewrite Hf, Hs. simpl.
      apply invariant_pending; [ reflexivity | ].
      unfold pending; simpl. repeat split; auto.
      rewrite forallb_app, Hh. reflexivity.
    + rewrite Hs. apply invariant_completed; auto.
    + destruct task as [ | e | k | e k | c k | k ]; try exact Hinv.
      destruct k as [ | e | k' | e k' | c k' | k' ]; simpl in Hk; try discriminate.
      * simpl. apply invariant_pending; [ exact Hf | ].
        unfold pending; simpl. repeat split; auto.
      * destruct e; try discriminate.
        destruct k' as [ | e | k2 | e k2 | c k2 | k2 ]; try discriminate.
        destruct e; try discriminate. simpl.
        apply resume_invariant; auto.
Qed.

Lemma exec_invariant (events : list Event) :
  forall a, invariant a -> invariant (exec events a).
Proof.
  induction events as [ | ev events IH ]; intros a H; [ exact H | ].
  rewrite exec_cons. apply IH, step_invariant, H.
Qed.

Lemma initial_invariant (platform : Platform) (request : Request) :
  invariant (initial platform request).
Proof.
  destruct (initial_suspended platform request) as [Hs Hk].
  unfold invariant, pending, flag. rewrite Hs. simpl.
  repeat split; auto; try discriminate.
  apply heartbeats_first_all. reflexivity.
Qed.

Lemma reachable_invariant (platform : Platform) (request : Request)
    (events : list Event) :
  invariant (exec events (initial platform request)).
Proof. apply exec_invariant, initial_invariant. Qed.

(** *** Schedules without a cancellation

    Heartbeats are queued only while the upstream call is pending, so a
    schedule in which the client does not cancel ends as the function
    run on its own would, from a state with some heartbeats queued. *)

Lemma beat_0 (s : State) : beat 0 s = s.
Proof. destruct s; unfold beat; simpl. rewrite app_nil_r. reflexivity. Qed.

Lemma beat_S (n : nat) (s : State) :
  beat (S n) s = beat n (beat 1 s).
Proof. unfold beat; simpl. rewrite <- app_assoc. reflexivity. Qed.

Lemma onHeartbeat_pending (a : Adapter) :
  flag a = false -> pending a -> onHeartbeat (snd a) = beat 1 (snd a).
Proof.
  destruct a as [task s]. unfold flag, pending; simpl.
  intros Hf (Hi & Hs & _).
  unfold onHeartbeat, controller_enqueue, put, beat. rewrite Hf, Hs. reflexivity.
Qed.

Lemma exec_undisturbed (events : list Event) :
  forall a,
    undisturbed events -> invariant a -> settled (exec events a) = true ->
    exists n,
      finish (fst a) (beat n (snd a)) = (escaped (exec events a), snd (exec events a)) /\
      (flag a = true -> n = 0).
Proof.
  induction events as [ | ev events IH ]; intros a Hu Hinv Hend.
  - exists 0. rewrite beat_0. split; [ apply settled_finish, Hend | reflexivity ].
  - rewrite exec_cons in *.
    unfold undisturbed in Hu. simpl in Hu. apply andb_true_iff in Hu as [Hev Hu].
    pose proof (step_invariant ev a Hinv) as Hinv'.
    destruct (IH (step ev a) Hu Hinv' Hend) as (n & Hn & Hz).
    pose proof Hinv as (Hp & Hc & _).
    destruct a as [task s]. unfold flag in *. simpl in Hp, Hc.
    change (fst (task, s)) with task. change (snd (task, s)) with s.
    destruct (isProcessingComplete s) eqn:Hf.
    + (* completion already announced: n = 0 throughout *)
      assert (Hf' : isProcessingComplete (snd (step ev (task, s))) = true)
        by (apply (step_flag ev (task, s)); exact Hf).
      rewrite (Hz Hf'), beat_0 in Hn.
      exists 0. rewrite beat_0. split; [ | reflexivity ].
      rewrite <- Hn.
      destruct ev as [ | reason | ]; try discriminate; simpl.
      * rewrite (Hc eq_refl). reflexivity.
      * destruct task; try reflexivity. simpl. symmetry. apply finish_run.
    + destruct (Hp eq_refl) as (Hi & Hs & Hk & _). simpl in Hi, Hs, Hk.
      destruct ev as [ | reason | ]; try discriminate.
      * (* a heartbeat *)
        exists (S n). split; [ | discriminate ].
        rewrite beat_S, <- Hn. simpl. rewrite Hi.
        pose proof (onHeartbeat_pending (task, s) Hf (Hp eq_refl)) as Hb.
        simpl in Hb. rewrite Hb. reflexivity.
      * destruct task as [ | e | k | e k | c k | k ];
          try (exists n; split; [ exact Hn | discriminate ]).
        destruct k as [ | e | k' | e k' | c k' | k' ]; simpl in Hk; try discriminate.
        -- exists n. split; [ exact Hn | discriminate ].
        -- destruct e; try discriminate.
           destruct k' as [ | e | k2 | e k2 | c k2 | k2 ]; try discriminate.
           destruct e; try discriminate.
           assert (Hf' : isProcessingComplete
                           (snd (step Resume (Await (Do OnComplete (Do ClearInterval k2)), s)))
                         = true) by (simpl; apply run_flag; reflexivity).
           rewrite (Hz Hf'), beat_0 in Hn.
           exists 0. rewrite beat_0. split; [ | reflexivity ].
           rewrite <- Hn. simpl. symmetry. apply finish_run.
Qed.

(** Every request settles: resuming the function often enough takes it
    to its end, whatever else has happened. *)
Lemma run_settles (p : Async) :
  forall s, exists n, settled (exec (repeat Resume n) (run p s)) = true.
Proof.
  induction p as [ | e | k IH | e k IH | c k IH | k IH ]; intro s; simpl.
  - exists 0. reflexivity.
  - exists 0. reflexivity.
  - destruct (IH s) as [n Hn]. exists (S n). exact Hn.
  - apply IH.
  - destruct (writer_write c s) as [r s']. apply IH.
  - destruct (writer_close s) as [r s']. apply IH.
Qed.

(** *** What the function queues when nothing is interleaved *)

Lemma initial_task (platform : Platform) (request : Request) :
  initial platform request = (processApiRequest platform request, opened).
Proof.
  unfold initial, handleKeepAliveStream, processApiRequest; simpl.
  destruct (body request) as [ buffered | ]; reflexivity.
Qed.

Lemma wrote_nil (s : State) : wrote [] s = s.
Proof. destruct s; unfold wrote; simpl. rewrite app_nil_r. reflexivity. Qed.

Lemma wrote_cons (c : string) (frames : list string) (s : State) :
  wrote frames (wrote [c] s) = wrote (c :: frames) s.
Proof. unfold wrote; simpl. rewrite <- app_assoc. reflexivity. Qed.

Lemma finish_await_write (c : string) (k : Async) (s : State) :
  stream s = Writable -> finish (await_write c k) s = finish k (wrote [c] s).
Proof.
  intro Hs. unfold await_write, await, wrote. simpl.
  unfold writer_write, put. rewrite Hs. reflexivity.
Qed.

Lemma finish_relay (chunks : list string) :
  forall s, stream s = Writable ->
            finish (relay chunks None) s = (None, wrote chunks s).
Proof.
  induction chunks as [ | value rest IH ]; intros s Hs.
  - rewrite wrote_nil. reflexivity.
  - change (finish (relay (value :: rest) None) s)
      with (finish (await_write value (relay rest None)) s).
    rewrite finish_await_write by exact Hs.
    rewrite IH by exact Hs. rewrite wrote_cons. reflexivity.
Qed.

Lemma finish_relayPayload (response : Response) (payload : list string) (s : State) :
  stream s = Writable -> relayed response = Some payload ->
  finish (relayPayload response) s = (None, wrote payload s).
Proof.
  intros Hs. unfold relayed, relayPayload.
  destruct (negb (ok response)).
  - destruct (text response) as [errorText | e]; [ | discriminate ].
    intro H; injection H as <-.
    change (finish (await (Fulfilled errorText) _) s)
      with (finish (await_write (frame (stringify (apiErrorData response errorText))) Return) s).
    rewrite finish_await_write by exact Hs. reflexivity.
  - destruct (includes (contentType response) "text/event-stream").
    + destruct (failure response) as [e | ]; [ discriminate | ].
      intro H; injection H as <-.
      rewrite finish_try_finally, finish_relay by exact Hs. reflexivity.
    + destruct (json response) as [data | e]; [ | discriminate ].
      intro H; injection H as <-.
      change (finish (await (Fulfilled data) _) s)
        with (finish (await_write (frame (stringify data)) Return) s).
      rewrite finish_await_write by exact Hs. reflexivity.
Qed.

Lemma finish_closeWriter (s : State) :
  stream s = Writable ->
  finish closeWriter s =
  (None, mkState (isProcessingComplete s) (heartbeatInterval s) Closed
                 (readable s) (refused s) (console s)).
Proof.
  intro Hs. unfold closeWriter, await_close, await. simpl.
  unfold writer_close. rewrite Hs. reflexivity.
Qed.

Lemma finish_try_block (platform : Platform) (request : Request) (s : State) :
  finish (processApiRequest platform request) s =
  match upstream platform request with
  | Fulfilled response =>
      finish (try_finally (try_catch (relayResponse response) onError) closeWriter) s
  | Rejected e => finish (try_finally (onError e) closeWriter) s
  end.
Proof.
  unfold processApiRequest, upstream.
  destruct (body request) as [ [ buffered | e ] | ]; simpl;
    try destruct (fetch platform _) as [ response | e' ]; reflexivity.
Qed.

Lemma finish_processApiRequest (platform : Platform) (request : Request)
    (response : Response) (payload : list string) (s : State) :
  stream s = Writable ->
  upstream platform request = Fulfilled response ->
  relayed response = Some payload ->
  finish (processApiRequest platform request) s = (None, relayed_to_end payload s).
Proof.
  intros Hs Hu Hr.
  rewrite finish_try_block, Hu.
  rewrite finish_try_finally, finish_try_catch.
  unfold relayResponse.
  change (finish (Do OnComplete (Do ClearInterval ?k)) s)
    with (finish k (clearInterval (set_complete s))).
  rewrite finish_seq.
  rewrite (finish_relayPayload response payload) by (exact Hs || exact Hr).
  rewrite finish_await_write by exact Hs.
  cbn [finish].
  rewrite finish_closeWriter by exact Hs.
  unfold relayed_to_end, wrote, written; simpl.
  rewrite map_app, app_assoc. reflexivity.
Qed.

Lemma finish_rejected_call (platform : Platform) (request : Request)
    (e : string) (s : State) :
  stream s = Writable ->
  upstream platform request = Rejected e ->
  finish (processApiRequest platform request) s =
  (None, mkState true false Closed
           (readable s ++ written [frame (stringify (internalErrorData e))])
           (refused s) (console s ++ ["KEEPALIVE mode error:"])).
Proof.
  intros Hs Hu.
  rewrite finish_try_block, Hu.
  rewrite finish_try_finally. unfold onError.
  change (finish (Do OnComplete (Do ClearInterval (Do (ConsoleError ?l) ?k))) s)
    with (finish k (log l (clearInterval (set_complete s)))).
  rewrite finish_await_write by exact Hs.
  cbn [finish].
  rewrite finish_closeWriter by exact Hs. reflexivity.
Qed.

(** The two outcomes under every schedule without a cancellation. *)
Lemma relay_outcome (platform : Platform) (request : Request)
    (response : Response) (payload : list string) (events : list Event) :
  upstream platform request = Fulfilled response ->
  relayed response = Some payload ->
  undisturbed events ->
  settled (exec events (initial platform request)) = true ->
  exists n,
    snd (exec events (initial platform request)) =
      mkState true false Closed (heartbeats n ++ written (payload ++ [DONE])) [] [] /\
    escaped (exec events (initial platform request)) = None.
Proof.
  intros Hu Hr Hev Hend.
  pose proof (initial_invariant platform request) as Hinv.
  rewrite initial_task in *.
  destruct (exec_undisturbed events _ Hev Hinv Hend) as (n & Hn & _).
  simpl fst in Hn. simpl snd in Hn.
  rewrite (finish_processApiRequest platform request response payload) in Hn
    by (reflexivity || assumption).
  injection Hn as He Hs. exists n. rewrite <- He, <- Hs. split; reflexivity.
Qed.

Lemma rejected_call_outcome (platform : Platform) (request : Request)
    (e : string) (events : list Event) :
  upstream platform request = Rejected e ->
  undisturbed events ->
  settled (exec events (initial platform request)) = true ->
  exists n,
    snd (exec events (initial platform request)) =
      mkState true false Closed
        (heartbeats n ++ written [frame (stringify (internalErrorData e))])
        [] ["KEEPALIVE mode error:"] /\
    escaped (exec events (initial platform request)) = None.
Proof.
  intros Hu Hev Hend.
  pose proof (initial_invariant platform request) as Hinv.
  rewrite initial_task in *.
  destruct (exec_undisturbed events _ Hev Hinv Hend) as (n & Hn & _).
  simpl fst in Hn. simpl snd in Hn.
  rewrite (finish_rejected_call platform request e) in Hn by (reflexivity || assumption).
  injection Hn as He Hs. exists n. rewrite <- He, <- Hs. split; reflexivity.
Qed.

Lemma initial_settles (platform : Platform) (request : Request) :
  exists n, settled (exec (repeat Resume n) (initial platform request)) = true.
Proof. apply run_settles. Qed.

Lemma undisturbed_resumes (n : nat) : undisturbed (repeat Resume n).
Proof. induction n; [ reflexivity | exact IHn ]. Qed.

(* ================================================================== *)
(** ** The terminal sequence *)
(* ================================================================== *)

(** C1 (as amended).  When the upstream call resolves and consuming the
    response raises nothing, then under every schedule in which the client
    does not cancel the stream receives the heartbeats, then the payload,
    then the done marker as its last frame, and is closed; the payload is
    exactly one frame for a non-2xx response and for a 2xx response that
    is not an event stream, and the chunks of the upstream body, as many
    as there are, for a 2xx event stream.  Such a schedule exists. *)
Theorem terminal_sequence (platform : Platform) (request : Request)
    (response : Response) (payload : list string) :
  upstream platform request = Fulfilled response ->
  relayed response = Some payload ->
  (exists events,
     undisturbed events /\ settled (exec events (initial platform request)) = true) /\
  (forall events,
     undisturbed events ->
     settled (exec events (initial platform request)) = true ->
     exists n,
       readable (snd (exec events (initial platform request))) =
         (heartbeats n ++ written payload ++ [(FromWriter, DONE)])%list /\
       stream (snd (exec events (initial platform request))) = Closed /\
       refused (snd (exec events (initial platform request))) = [] /\
       escaped (exec events (initial platform request)) = None) /\
  (ok response = false \/ includes (contentType response) "text/event-stream" = false ->
   exists one, payload = [one]) /\
  (ok response = true -> includes (contentType response) "text/event-stream" = true ->
   payload = chunks response).
Proof.
  intros Hu Hr. split; [ | split; [ | split ] ].
  - destruct (initial_settles platform request) as [n Hn].
    exists (repeat Resume n). split; [ apply undisturbed_resumes | exact Hn ].
  - intros events Hev Hend.
    destruct (relay_outcome platform request response payload events Hu Hr Hev Hend)
      as (n & Hs & He).
    exists n. rewrite Hs, He. simpl. unfold written. rewrite map_app. auto.
  - unfold relayed in Hr. intros [Hok | Hct].
    + rewrite Hok in Hr. simpl in Hr.
      destruct (text response); [ | discriminate ]. injection Hr as <-. eauto.
    + rewrite Hct in Hr. destruct (negb (ok response)).
      * destruct (text response); [ | discriminate ]. injection Hr as <-. eauto.
      * destruct (json response); [ | discriminate ]. injection Hr as <-. eauto.
  - unfold relayed in Hr. intros Hok Hct. rewrite Hok, Hct in Hr. simpl in Hr.
    destruct (failure response); [ discriminate | ]. injection Hr as <-. reflexivity.
Qed.

Lemma terminal_sequence_witness :
  exists n,
    readable (snd (exec (repeat Resume 6)
                     (initial (platform_with (Fulfilled json_200)) example_request))) =
      (heartbeats n ++ written [frame x_is_1] ++ [(FromWriter, DONE)])%list.
Proof.
  destruct (terminal_sequence (platform_with (Fulfilled json_200)) example_request
              json_200 [frame x_is_1] eq_refl eq_refl) as (_ & H & _).
  destruct (H (repeat Resume 6) eq_refl eq_refl) as (n & Hn & _).
  exists n. exact Hn.
Defined.

(** C1 (as stated) fails where the upstream answers with an event stream:
    each chunk of its body is relayed as a frame of its own, so two
    payload frames precede the done marker. *)
Lemma event_stream_relays_every_chunk :
  settled (exec (repeat Resume 9)
             (initial (platform_with (Fulfilled event_stream_200)) example_request)) = true /\
  ~ one_payload_then_done
      (exec (repeat Resume 9)
         (initial (platform_with (Fulfilled event_stream_200)) example_request)).
Proof.
  split; [ reflexivity | ].
  intros (hs & payload & H & Hh & _).
  vm_compute in H.
  destruct hs as [ | h1 hs ].
  - discriminate H.
  - injection H as H1 _. subst h1. discriminate Hh.
Qed.





(* ================================================================== *)
(** ** Heartbeats, completion and cancellation *)
(* ================================================================== *)

Lemma exec_flag (events : list Event) :
  forall a, flag a = true -> flag (exec events a) = true.
Proof.
  induction events as [ | ev events IH ]; intros a H; [ exact H | ].
  rewrite exec_cons. apply IH, step_flag, H.
Qed.

Lemma filter_heartbeat_writer (ws : list Chunk) :
  forallb from_writer ws = true -> filter from_heartbeat ws = [].
Proof.
  induction ws as [ | c ws IH ]; simpl; [ reflexivity | ].
  unfold from_writer at 1. destruct (from_heartbeat c); simpl; [ discriminate | exact IH ].
Qed.

(** Whatever the function queues, or is refused, is its own. *)
Lemma run_writes (p : Async) :
  forall s,
    exists ws rs,
      readable (snd (run p s)) = (readable s ++ ws)%list /\
      refused (snd (run p s)) = (refused s ++ rs)%list /\
      forallb from_writer ws = true /\ forallb from_writer rs = true.
Proof.
  induction p as [ | e | k IH | e k IH | c k IH | k IH ]; intro s; simpl;
    try (exists [], []; rewrite !app_nil_r; auto; fail).
  - destruct e as [ | | label | ];
      [ apply (IH (set_complete s)) | apply (IH (clearInterval s))
      | apply (IH (log label s)) | apply (IH s) ].
  - unfold writer_write, put.
    destruct (stream s) as [ | reason | ];
      match goal with
      | |- context [run (k ?r) ?s'] => destruct (IH r s') as (ws & rs & H1 & H2 & H3 & H4)
      end; simpl in H1, H2.
    + exists ((FromWriter, c) :: ws), rs. rewrite H1, H2, <- app_assoc. auto.
    + exists ws, ((FromWriter, c) :: rs). rewrite H1, H2, <- app_assoc. auto.
    + exists ws, ((FromWriter, c) :: rs). rewrite H1, H2, <- app_assoc. auto.
  - unfold writer_close.
    destruct (stream s) as [ | reason | ];
      match goal with
      | |- context [run (k ?r) ?s'] => apply (IH r s')
      end.
Qed.


(** One callback after completion: flag and interval stay, and no
    heartbeat is queued or attempted. *)
Lemma step_completed (ev : Event) (a : Adapter) :
  flag a = true -> heartbeatInterval (snd a) = false ->
  flag (step ev a) = true /\
  heartbeatInterval (snd (step ev a)) = false /\
  filter from_heartbeat (readable (snd (step ev a))) =
    filter from_heartbeat (readable (snd a)) /\
  filter from_heartbeat (refused (snd (step ev a))) =
    filter from_heartbeat (refused (snd a)).
Proof.
  intros Hf Hi. split; [ apply step_flag, Hf | ].
  destruct a as [task s]. unfold flag in Hf. simpl in Hf, Hi |- *.
  destruct ev as [ | reason | ].
  - rewrite Hi. auto.
  - destruct (stream s); auto.
  - destruct task as [ | e | k | e k | c k | k ]; auto.
    destruct (run_completed k s Hf Hi) as (_ & H2 & _).
    destruct (run_writes k s) as (ws & rs & H3 & H4 & H5 & H6).
    rewrite H3, H4, !filter_app.
    rewrite (filter_heartbeat_writer ws H5), (filter_heartbeat_writer rs H6), !app_nil_r.
    auto.
Qed.

Lemma exec_completed (events : list Event) :
  forall a,
    flag a = true -> heartbeatInterval (snd a) = false ->
    filter from_heartbeat (readable (snd (exec events a))) =
      filter from_heartbeat (readable (snd a)) /\
    filter from_heartbeat (refused (snd (exec events a))) =
      filter from_heartbeat (refused (snd a)).
Proof.
  induction events as [ | ev events IH ]; intros a Hf Hi; [ auto | ].
  rewrite exec_cons.
  destruct (step_completed ev a Hf Hi) as (Hf' & Hi' & Hr & Hq).
  destruct (IH (step ev a) Hf' Hi') as [Hr' Hq'].
  split; congruence.
Qed.



Lemma existsb_writer (l : list Chunk) :
  forallb from_heartbeat l = true -> existsb from_writer l = false.
Proof.
  induction l as [ | c l IH ]; simpl; [ reflexivity | ].
  unfold from_writer at 1. destruct (from_heartbeat c); simpl; [ exact IH | discriminate ].
Qed.

(** C2.  Under every interleaving: the frames queued for the client are
    heartbeats followed by frames of the writer, never a heartbeat after a
    frame of the writer; when the writer has written, or tried to write, a
    frame, the flag is already true and the interval cleared; and once the
    flag is true no heartbeat is queued or attempted by anything that
    follows. *)
Theorem no_heartbeat_after_completion (platform : Platform) (request : Request)
    (before after : list Event) :
  heartbeats_first (readable (snd (exec before (initial platform request)))) /\
  (existsb from_writer
     (readable (snd (exec before (initial platform request))) ++
      refused (snd (exec before (initial platform request)))) = true ->
   flag (exec before (initial platform request)) = true /\
   heartbeatInterval (snd (exec before (initial platform request))) = false) /\
  (flag (exec before (initial platform request)) = true ->
   filter from_heartbeat
     (readable (snd (exec after (exec before (initial platform request))))) =
   filter from_heartbeat (readable (snd (exec before (initial platform request)))) /\
   filter from_heartbeat
     (refused (snd (exec after (exec before (initial platform request))))) =
   filter from_heartbeat (refused (snd (exec before (initial platform request))))).
Proof.
  pose proof (reachable_invariant platform request before) as (Hp & Hc & Ho).
  split; [ exact Ho | split ].
  - intro Hw.
    destruct (flag (exec before (initial platform request))) eqn:Hf; [ auto | ].
    destruct (Hp eq_refl) as (_ & _ & _ & Hh & Hr).
    rewrite Hr, app_nil_r, (existsb_writer _ Hh) in Hw. discriminate.
  - intro Hf. apply exec_completed; auto.
Qed.

Lemma no_heartbeat_after_completion_witness :
  flag (exec [Tick; Resume; Resume; Resume]
          (initial (platform_with (Fulfilled json_200)) example_request)) = true /\
  filter from_heartbeat
    (readable (snd (exec [Tick; Resume; Tick; Cancel "gone"; Resume; Tick]
                      (exec [Tick; Resume; Resume; Resume]
                         (initial (platform_with (Fulfilled json_200)) example_request))))) =
  filter from_heartbeat
    (readable (snd (exec [Tick; Resume; Resume; Resume]
                      (initial (platform_with (Fulfilled json_200)) example_request)))).
Proof.
  destruct (no_heartbeat_after_completion (platform_with (Fulfilled json_200))
              example_request [Tick; Resume; Resume; Resume]
              [Tick; Resume; Tick; Cancel "gone"; Resume; Tick]) as (_ & Hw & Hq).
  split; [ apply Hw; reflexivity | apply Hq; reflexivity ].
Defined.




Lemma flips_count (events : list Event) :
  forall a,
    flips events a =
    if flag a then 0 else if flag (exec events a) then 1 else 0.
Proof.
  induction events as [ | ev events IH ]; intro a.
  - simpl. destruct (flag a); reflexivity.
  - rewrite exec_cons. simpl. rewrite IH.
    destruct (flag a) eqn:Hf.
    + rewrite (step_flag ev a Hf). reflexivity.
    + destruct (flag (step ev a)) eqn:Hf'; simpl.
      * rewrite (exec_flag events _ Hf'). reflexivity.
      * reflexivity.
Qed.

Lemma settled_completed (a : Adapter) :
  invariant a -> settled a = true -> flag a = true.
Proof.
  intros (Hp & _) Hend.
  destruct (flag a) eqn:Hf; [ reflexivity | ].
  destruct (Hp eq_refl) as (_ & _ & Hk & _).
  destruct a as [task s]. unfold settled in Hend. simpl in Hk, Hend.
  destruct task; discriminate.
Qed.

(** C9.  The flag is false when the stream is handed to the client; along
    every schedule it goes from false to true at most once, exactly once
    when it is true at the end, which it is whenever the function has
    run to its end; and no callback (heartbeat, cancellation, resumption of
    the function into its try or its catch block) takes it back to
    false. *)
Theorem completion_flag_set_once (platform : Platform) (request : Request)
    (events : list Event) :
  flag (initial platform request) = false /\
  flips events (initial platform request) =
    (if flag (exec events (initial platform request)) then 1 else 0) /\
  (settled (exec events (initial platform request)) = true ->
   flag (exec events (initial platform request)) = true) /\
  (forall later,
     flag (exec events (initial platform request)) = true ->
     flag (exec later (exec events (initial platform request))) = true).
Proof.
  assert (H0 : flag (initial platform request) = false)
    by (rewrite initial_task; reflexivity).
  split; [ exact H0 | split; [ | split ] ].
  - rewrite flips_count, H0. reflexivity.
  - apply settled_completed, reachable_invariant.
  - intros later. apply exec_flag.
Qed.

Lemma completion_flag_set_once_witness :
  flag (exec [Tick; Resume; Tick; Resume; Resume; Resume; Resume; Resume]
          (initial (platform_with (Rejected "network down")) example_request)) = true /\
  flag (exec [Tick; Cancel "gone"; Resume]
          (exec [Tick; Resume; Tick; Resume; Resume; Resume; Resume; Resume]
             (initial (platform_with (Rejected "network down")) example_request))) = true.
Proof.
  destruct (completion_flag_set_once (platform_with (Rejected "network down"))
              example_request
              [Tick; Resume; Tick; Resume; Resume; Resume; Resume; Resume])
    as (_ & _ & Hs & Hl).
  split; [ apply Hs; reflexivity | apply Hl, Hs; reflexivity ].
Defined.

(** C10.  The response of an adapted request has status 200, the three
    event-stream headers and the CORS headers; it is returned while the
    function is still suspended, before anything has been written; and it
    is the same response whatever the upstream does. *)
Theorem adapted_response_is_fixed (platform : Platform) (request : Request) :
  response_status (fst (handleKeepAliveStream platform request)) = 200%Z /\
  headers_get (response_headers (fst (handleKeepAliveStream platform request)))
    "Content-Type" = Some "text/event-stream" /\
  headers_get (response_headers (fst (handleKeepAliveStream platform request)))
    "Cache-Control" = Some "no-cache" /\
  headers_get (response_headers (fst (handleKeepAliveStream platform request)))
    "Connection" = Some "keep-alive" /\
  headers_get (response_headers (fst (handleKeepAliveStream platform request)))
    "Access-Control-Allow-Origin" = Some "*" /\
  headers_get (response_headers (fst (handleKeepAliveStream platform request)))
    "Access-Control-Allow-Methods" = Some "GET, POST, OPTIONS" /\
  headers_get (response_headers (fst (handleKeepAliveStream platform request)))
    "Access-Control-Allow-Headers" = Some "Content-Type, Authorization" /\
  settled (snd (handleKeepAliveStream platform request)) = false /\
  snd (snd (handleKeepAliveStream platform request)) = opened /\
  (forall (platform' : Platform) (request' : Request),
     fst (handleKeepAliveStream platform' request') =
     fst (handleKeepAliveStream platform request)).
Proof.
  repeat (split; [ reflexivity | ]).
  pose proof (initial_task platform request) as H. unfold initial in H.
  rewrite H. split; [ | split; reflexivity ].
  unfold settled, processApiRequest; simpl.
  destruct (body request); reflexivity.
Qed.

(* ================================================================== *)
(** ** The heartbeat frame *)
(* ================================================================== *)

Lemma writer_genuine (ws : list Chunk) :
  forallb from_writer ws = true -> Forall genuine ws.
Proof.
  induction ws as [ | c ws IH ]; simpl; intro H; constructor.
  - apply andb_true_iff in H as [H _]. unfold genuine, from_writer in *.
    destruct (from_heartbeat c); discriminate.
  - apply IH. apply andb_true_iff in H as [_ H]. exact H.
Qed.

Lemma step_genuine (ev : Event) (a : Adapter) :
  Forall genuine (readable (snd a)) -> Forall genuine (readable (snd (step ev a))).
Proof.
  destruct a as [task s]. simpl. intro H.
  destruct ev as [ | reason | ]; simpl.
  - destruct (heartbeatInterval s); simpl; auto.
    unfold onHeartbeat, controller_enqueue, put.
    destruct (isProcessingComplete s); simpl; auto.
    destruct (stream s); simpl; auto.
    apply Forall_app. split; [ exact H | ].
    constructor; [ intro; reflexivity | constructor ].
  - destruct (stream s); simpl; auto.
  - destruct task as [ | e | k | e k | c k | k ]; auto.
    destruct (run_writes k s) as (ws & rs & H1 & _ & H2 & _).
    rewrite H1. apply Forall_app. split; [ exact H | apply writer_genuine, H2 ].
Qed.

Lemma exec_genuine (events : list Event) :
  forall a, Forall genuine (readable (snd a)) ->
            Forall genuine (readable (snd (exec events a))).
Proof.
  induction events as [ | ev events IH ]; intros a H; [ exact H | ].
  rewrite exec_cons. apply IH, step_genuine, H.
Qed.

(** C7 (as amended).  Every frame the heartbeat callback queues is
    [data: <JSON>] followed by two line feeds, where the JSON is the
    success envelope whose text part is the two line feeds, whose finish
    reason is STOP and whose three usage counters are 0. *)
Theorem heartbeat_wire_form (platform : Platform) (request : Request)
    (events : list Event) (c : Chunk) :
  In c (readable (snd (exec events (initial platform request)))) ->
  from_heartbeat c = true ->
  snd c = "data: " ++ stringify heartbeatData ++ LF ++ LF /\
  text_content heartbeatData = Some (JString (LF ++ LF)) /\
  finish_reason heartbeatData = Some (JString "STOP") /\
  usage "promptTokenCount" heartbeatData = Some (JNumber 0) /\
  usage "candidatesTokenCount" heartbeatData = Some (JNumber 0) /\
  usage "totalTokenCount" heartbeatData = Some (JNumber 0).
Proof.
  intros Hin Hc.
  assert (Hg : Forall genuine (readable (snd (exec events (initial platform request))))).
  { apply exec_genuine. rewrite initial_task. constructor. }
  rewrite Forall_forall in Hg.
  split; [ apply (Hg c Hin Hc) | repeat split ].
Qed.

Lemma heartbeat_wire_form_witness :
  snd (FromHeartbeat, heartbeat) = "data: " ++ stringify heartbeatData ++ LF ++ LF /\
  text_content heartbeatData = Some (JString (LF ++ LF)).
Proof.
  destruct (heartbeat_wire_form (platform_with (Fulfilled json_200)) example_request
              [Tick; Resume; Tick] (FromHeartbeat, heartbeat))
    as (H1 & H2 & _).
  - simpl. right. left. reflexivity.
  - reflexivity.
  - split; assumption.
Defined.

(** C7 (as stated) fails: the text part of the heartbeat the interval
    queues is not the empty string but two line feeds, and the frame on
    the wire has no empty [text] member. *)
Lemma heartbeat_text_is_not_empty :
  readable (snd (exec [Tick] (initial (platform_with (Fulfilled json_200)) example_request)))
    = [(FromHeartbeat, frame (stringify heartbeatData))] /\
  text_content heartbeatData <> Some (JString EmptyString) /\
  includes (frame (stringify heartbeatData)) (quote "text" ++ ":" ++ quote EmptyString)
    = false /\
  includes (frame (stringify heartbeatData)) (quote "text" ++ ":" ++ quote (LF ++ LF))
    = true.
Proof.
  split; [ reflexivity | split; [ discriminate | split; reflexivity ] ].
Qed.

(* ================================================================== *)
(** ** prepareTargetUrl *)
(* ================================================================== *)

Lemma get_set (params : URLSearchParams) (name value : string) :
  get (set params name value) name = Some value.
Proof.
  induction params as [ | [n v] rest IH ]; simpl.
  - rewrite String.eqb_refl. reflexivity.
  - destruct (String.eqb n name) eqn:E; simpl.
    + rewrite String.eqb_refl. reflexivity.
    + rewrite E. exact IH.
Qed.

Lemma without_idempotent (name : string) (params : URLSearchParams) :
  without name (without name params) = without name params.
Proof.
  unfold without. induction params as [ | [n v] rest IH ]; simpl; [ reflexivity | ].
  destruct (String.eqb n name) eqn:E; simpl; [ exact IH | ].
  rewrite E. simpl. rewrite IH. reflexivity.
Qed.

Lemma without_set (params : URLSearchParams) (name value : string) :
  without name (set params name value) = without name params.
Proof.
  induction params as [ | [n v] rest IH ]; simpl.
  - rewrite String.eqb_refl. reflexivity.
  - destruct (String.eqb n name) eqn:E; simpl.
    + rewrite String.eqb_refl. simpl. apply without_idempotent.
    + rewrite E. simpl. rewrite IH. reflexivity.
Qed.

Lemma floor_times_range (random : Random) (n : nat) :
  unit_interval random -> 0 < n ->
  (0 <= floor_times random n < Z.of_nat n)%Z.
Proof.
  unfold unit_interval, floor_times. intros [Hlo Hhi] Hn. split.
  - apply Z.div_pos; nia.
  - apply Z.div_lt_upper_bound; nia.
Qed.

Lemma index_In (a : list string) (i : Z) :
  (0 <= i < Z.of_nat (List.length a))%Z -> In (index a i) a.
Proof.
  intros [Hlo Hhi]. unfold index.
  destruct (i <? 0)%Z eqn:E; [ apply Z.ltb_lt in E; lia | ].
  destruct (nth_error a (Z.to_nat i)) as [x | ] eqn:Hn.
  - eapply nth_error_In, Hn.
  - apply nth_error_None in Hn. lia.
Qed.

Lemma includes_nonempty (s sub : string) :
  includes s sub = true -> sub <> EmptyString -> Boolean s = true.
Proof.
  destruct s; simpl; [ | reflexivity ].
  destruct sub; [ intros _ H; contradiction H; reflexivity | discriminate ].
Qed.

(** The key the target URL carries, by cases on the key of the request. *)
Lemma chosen_key (random : Random) (url : URL) :
  unit_interval random ->
  match get (searchParams url) "key" with
  | None => snd (prepareTargetUrl random url) = url
  | Some keys =>
      if includes keys "," then
        match filter Boolean (map trim (split "," keys)) with
        | [] => snd (prepareTargetUrl random url) = url
        | tokens =>
            exists token,
              In token tokens /\
              searchParams (snd (prepareTargetUrl random url)) =
                set (searchParams url) "key" token
        end
      else snd (prepareTargetUrl random url) = url
  end.
Proof.
  intro Hr. unfold prepareTargetUrl.
  destruct url as [path params]; simpl.
  destruct (get params "key") as [keys | ]; [ | reflexivity ].
  destruct (includes keys ",") eqn:Hc.
  - rewrite (includes_nonempty keys "," Hc) by discriminate. simpl.
    destruct (filter Boolean (map trim (split "," keys))) as [ | t ts ] eqn:Ht;
      [ reflexivity | ].
    change (Nat.ltb 0 (List.length (t :: ts))) with true. cbv iota.
    exists (index (t :: ts) (floor_times random (List.length (t :: ts)))).
    split; [ | reflexivity ].
    apply (index_In (t :: ts)), floor_times_range; [ exact Hr | simpl; lia ].
  - rewrite andb_false_r. reflexivity.
Qed.

(** C6.  The key of the target URL against the key of the request: an
    absent key stays absent; a key without a comma is kept; a key with
    commas is split at them, each piece trimmed and the empty ones
    dropped, and the key becomes one of the pieces that are left, or is
    kept as it was when none is left.  For the key [ a , b ] the outcome
    is [a] or [b]. *)
Theorem key_selector (random : Random) (url : URL) :
  unit_interval random ->
  (get (searchParams url) "key" = None ->
   get (searchParams (snd (prepareTargetUrl random url))) "key" = None) /\
  (forall keys,
     get (searchParams url) "key" = Some keys ->
     (includes keys "," = false ->
      get (searchParams (snd (prepareTargetUrl random url))) "key" = Some keys) /\
     (includes keys "," = true ->
      filter Boolean (map trim (split "," keys)) = [] ->
      get (searchParams (snd (prepareTargetUrl random url))) "key" = Some keys) /\
     (includes keys "," = true ->
      filter Boolean (map trim (split "," keys)) <> [] ->
      exists piece,
        In piece (split "," keys) /\
        trim piece <> EmptyString /\
        get (searchParams (snd (prepareTargetUrl random url))) "key"
          = Some (trim piece))) /\
  (get (searchParams url) "key" = Some " a , b " ->
   get (searchParams (snd (prepareTargetUrl random url))) "key" = Some "a" \/
   get (searchParams (snd (prepareTargetUrl random url))) "key" = Some "b").
Proof.
  intro Hr. pose proof (chosen_key random url Hr) as H.
  split; [ | split ].
  - intro Hk. rewrite Hk in H. rewrite H. exact Hk.
  - intros keys Hk. rewrite Hk in H. split; [ | split ].
    + intro Hc. rewrite Hc in H. rewrite H. exact Hk.
    + intros Hc Ht. rewrite Hc, Ht in H. rewrite H. exact Hk.
    + intros Hc Ht. rewrite Hc in H.
      destruct (filter Boolean (map trim (split "," keys))) as [ | t ts ] eqn:Hf;
        [ contradiction Ht; reflexivity | ].
      destruct H as (token & Hin & Hs).
      rewrite <- Hf in Hin. apply filter_In in Hin as [Hin Hb].
      apply in_map_iff in Hin as (piece & <- & Hin).
      exists piece. split; [ exact Hin | split ].
      * intro He. rewrite He in Hb. discriminate Hb.
      * rewrite Hs. apply get_set.
  - intro Hk. rewrite Hk in H.
    change (includes " a , b " ",") with true in H.
    change (filter Boolean (map trim (split "," " a , b "))) with ["a"; "b"] in H.
    cbv iota in H. destruct H as (token & Hin & Hs).
    rewrite Hs, get_set.
    destruct Hin as [<- | [<- | []]]; auto.
Qed.

Lemma key_selector_witness :
  get (searchParams (snd (prepareTargetUrl (mkRandom 1 2) (url example_request)))) "key"
    = Some "a" \/
  get (searchParams (snd (prepareTargetUrl (mkRandom 1 2) (url example_request)))) "key"
    = Some "b".
Proof.
  assert (Hr : unit_interval (mkRandom 1 2)) by (unfold unit_interval; simpl; lia).
  destruct (key_selector (mkRandom 1 2) (url example_request) Hr) as (_ & _ & H).
  apply H. reflexivity.
Defined.

(** C8 (as amended).  The function is total.  The URL it returns is
    [https://] followed by the host, the path and [?] and the serialized
    parameters; the path and every parameter other than [key] are those of
    its argument, in order; and its argument is left as it was when the
    key is absent, has no comma, or has no piece left after trimming.
    Otherwise the function sets the key of the argument itself to the
    piece that the draw of [Math.random] selects. *)
Theorem prepareTargetUrl_effect (random : Random) (url : URL) :
  fst (prepareTargetUrl random url) =
    "https://" ++ "generativelanguage.googleapis.com" ++ pathname url ++ "?"
    ++ toString (searchParams (snd (prepareTargetUrl random url))) /\
  pathname (snd (prepareTargetUrl random url)) = pathname url /\
  without "key" (searchParams (snd (prepareTargetUrl random url))) =
    without "key" (searchParams url) /\
  (get (searchParams url) "key" = None ->
   snd (prepareTargetUrl random url) = url /\
   fst (prepareTargetUrl random url) =
     "https://" ++ "generativelanguage.googleapis.com" ++ pathname url ++ "?"
     ++ toString (searchParams url)) /\
  (forall keys,
     get (searchParams url) "key" = Some keys ->
     includes keys "," = false \/ filter Boolean (map trim (split "," keys)) = [] ->
     snd (prepareTargetUrl random url) = url) /\
  (forall keys,
     get (searchParams url) "key" = Some keys ->
     includes keys "," = true ->
     filter Boolean (map trim (split "," keys)) <> [] ->
     searchParams (snd (prepareTargetUrl random url)) =
       set (searchParams url) "key"
         (index (filter Boolean (map trim (split "," keys)))
            (floor_times random
               (List.length (filter Boolean (map trim (split "," keys))))))).
Proof.
  destruct url as [path params]. unfold prepareTargetUrl. simpl.
  split; [ reflexivity | split; [ reflexivity | split; [ | split; [ | split ] ] ] ].
  - destruct (get params "key") as [keys | ]; [ | reflexivity ].
    destruct (Boolean keys && includes keys ","); [ | reflexivity ].
    destruct (Nat.ltb 0 _); [ apply without_set | reflexivity ].
  - intro Hk. rewrite Hk. split; reflexivity.
  - intros keys Hk Hcase. rewrite Hk.
    destruct Hcase as [Hc | Ht].
    + rewrite Hc, andb_false_r. reflexivity.
    + rewrite Ht. simpl. destruct (Boolean keys && includes keys ","); reflexivity.
  - intros keys Hk Hc Ht. rewrite Hk, Hc.
    rewrite (includes_nonempty keys "," Hc) by discriminate.
    destruct (filter Boolean (map trim (split "," keys))) as [ | t ts ];
      [ contradiction Ht; reflexivity | reflexivity ].
Qed.

Lemma prepareTargetUrl_effect_witness :
  snd (prepareTargetUrl (mkRandom 1 2) no_key_url) = no_key_url /\
  fst (prepareTargetUrl (mkRandom 1 2) no_key_url) =
    "https://generativelanguage.googleapis.com/v1beta/models?pageSize=5+0&alt=json".
Proof.
  destruct (prepareTargetUrl_effect (mkRandom 1 2) no_key_url) as (_ & _ & _ & H & _).
  destruct (H eq_refl) as [H1 H2]. split; [ exact H1 | ].
  rewrite H2. reflexivity.
Defined.

(** C8 (as stated) fails: given a key that lists two, the function
    overwrites the key in the [searchParams] of its argument, and what it
    returns changes with the draw of [Math.random]. *)
Lemma prepareTargetUrl_rewrites_its_argument :
  snd (prepareTargetUrl (mkRandom 1 2) two_keys_url) =
    mkURL "/v1beta/models/gemini-pro:generateContent" [("key", "b"); ("alt", "json")] /\
  snd (prepareTargetUrl (mkRandom 1 2) two_keys_url) <> two_keys_url /\
  fst (prepareTargetUrl (mkRandom 0 2) two_keys_url) <>
  fst (prepareTargetUrl (mkRandom 1 2) two_keys_url).
Proof.
  split; [ reflexivity | split; vm_compute; discriminate ].
Qed.

(* ================================================================== *)
(** ** Every path of a request nobody cancels *)
(* ================================================================== *)

Lemma finish_relay_any (chunks : list string) (failure : option string) :
  forall s, stream s = Writable ->
            finish (relay chunks failure) s = (failure, wrote chunks s).
Proof.
  induction chunks as [ | value rest IH ]; intros s Hs.
  - rewrite wrote_nil. destruct failure; reflexivity.
  - change (finish (relay (value :: rest) failure) s)
      with (finish (await_write value (relay rest failure)) s).
    rewrite finish_await_write by exact Hs.
    rewrite IH by exact Hs. rewrite wrote_cons. reflexivity.
Qed.

Lemma finish_relayPayload_any (response : Response) (s : State) :
  stream s = Writable ->
  finish (relayPayload response) s =
  (snd (consumed response), wrote (fst (consumed response)) s).
Proof.
  intros Hs. unfold consumed, relayPayload.
  destruct (negb (ok response)).
  - destruct (text response) as [errorText | e]; simpl snd; simpl fst.
    + change (finish (await (Fulfilled errorText) _) s)
        with (finish (await_write (frame (stringify (apiErrorData response errorText)))
                        Return) s).
      rewrite finish_await_write by exact Hs. reflexivity.
    + rewrite wrote_nil. reflexivity.
  - destruct (includes (contentType response) "text/event-stream"); simpl snd; simpl fst.
    + rewrite finish_try_finally, finish_relay_any by exact Hs.
      destruct (failure response); reflexivity.
    + destruct (json response) as [data | e]; simpl snd; simpl fst.
      * change (finish (await (Fulfilled data) _) s)
          with (finish (await_write (frame (stringify data)) Return) s).
        rewrite finish_await_write by exact Hs. reflexivity.
      * rewrite wrote_nil. reflexivity.
Qed.

Lemma finish_onError (e : string) (s : State) :
  stream s = Writable ->
  finish (try_finally (onError e) closeWriter) s =
  (None, mkState true false Closed
           (readable s ++ written [internalErrorFrame e])
           (refused s) (console s ++ ["KEEPALIVE mode error:"])).
Proof.
  intro Hs. rewrite finish_try_finally. unfold onError.
  change (finish (Do OnComplete (Do ClearInterval (Do (ConsoleError ?l) ?k))) s)
    with (finish k (log l (clearInterval (set_complete s)))).
  rewrite finish_await_write by exact Hs.
  cbn [finish].
  rewrite finish_closeWriter by exact Hs. reflexivity.
Qed.

(** The function run on its own from an open stream: it never rejects,
    it queues [terminal_frames] and closes. *)
Lemma finish_any (platform : Platform) (request : Request) (s : State) :
  stream s = Writable ->
  finish (processApiRequest platform request) s =
  (None, mkState true false Closed
           (readable s ++ written (terminal_frames platform request))
           (refused s)
           (console s ++
            if fails platform request then ["KEEPALIVE mode error:"] else [])).
Proof.
  intro Hs. rewrite finish_try_block. unfold terminal_frames, fails.
  destruct (upstream platform request) as [response | e].
  - rewrite finish_try_finally, finish_try_catch. unfold relayResponse.
    change (finish (Do OnComplete (Do ClearInterval ?k)) s)
      with (finish k (clearInterval (set_complete s))).
    rewrite finish_seq, finish_relayPayload_any by exact Hs.
    destruct (snd (consumed response)) as [e | ].
    + pose proof (finish_onError e
                    (wrote (fst (consumed response)) (clearInterval (set_complete s))) Hs)
        as H.
      rewrite finish_try_finally in H. rewrite H.
      unfold wrote, written; simpl. rewrite map_app, app_assoc. reflexivity.
    + rewrite finish_await_write by exact Hs. cbn [finish].
      rewrite finish_closeWriter by exact Hs.
      unfold wrote, written; simpl. rewrite map_app, app_assoc, app_nil_r. reflexivity.
  - apply finish_onError, Hs.
Qed.

Lemma outcome_any (platform : Platform) (request : Request) (events : list Event) :
  undisturbed events ->
  settled (exec events (initial platform request)) = true ->
  exists n,
    snd (exec events (initial platform request)) =
      mkState true false Closed
        (heartbeats n ++ written (terminal_frames platform request)) []
        (if fails platform request then ["KEEPALIVE mode error:"] else []) /\
    escaped (exec events (initial platform request)) = None.
Proof.
  intros Hev Hend.
  pose proof (initial_invariant platform request) as Hinv.
  rewrite initial_task in *.
  destruct (exec_undisturbed events _ Hev Hinv Hend) as (n & Hn & _).
  simpl fst in Hn. simpl snd in Hn.
  rewrite (finish_any platform request) in Hn by reflexivity.
  injection Hn as He Hs. exists n. rewrite <- He, <- Hs. split; reflexivity.
Qed.

Lemma internal_frame_is_not_done (e : string) : internalErrorFrame e <> DONE.
Proof. unfold internalErrorFrame, DONE, frame. simpl. discriminate. Qed.

Lemma heartbeats_from_heartbeat (n : nat) (c : Chunk) :
  In c (heartbeats n) -> fst c = FromHeartbeat.
Proof. intro H. apply repeat_spec in H. subst c. reflexivity. Qed.

(** X1.  When the upstream call fails, or the body of the request cannot
    be buffered, then under every schedule in which the client does not
    cancel the client is sent the heartbeats and one internal-error frame
    carrying the message of the error, and no done marker; the stream is
    closed, the error is logged and nothing leaves the function. *)
Theorem failed_call_frames (platform : Platform) (request : Request)
    (e : string) (events : list Event) :
  upstream platform request = Rejected e ->
  undisturbed events ->
  settled (exec events (initial platform request)) = true ->
  (exists n,
     readable (snd (exec events (initial platform request))) =
       (heartbeats n ++
        [ (FromWriter,
           frame (stringify
             (JObject
                [ ("error",
                   JObject [ ("message", JString "Worker internal error");
                             ("details", JString e) ]) ]))) ])%list) /\
  ~ In (FromWriter, DONE) (readable (snd (exec events (initial platform request)))) /\
  stream (snd (exec events (initial platform request))) = Closed /\
  console (snd (exec events (initial platform request))) = ["KEEPALIVE mode error:"] /\
  escaped (exec events (initial platform request)) = None.
Proof.
  intros Hu Hev Hend.
  destruct (outcome_any platform request events Hev Hend) as (n & Hs & He).
  unfold terminal_frames, fails in Hs. rewrite Hu in Hs.
  rewrite Hs, He. simpl. repeat split; eauto.
  intro Hin. apply in_app_or in Hin as [Hin | [Hin | []]].
  - apply heartbeats_from_heartbeat in Hin. discriminate Hin.
  - apply (f_equal snd) in Hin. exact (internal_frame_is_not_done e Hin).
Qed.

Lemma failed_call_frames_witness :
  ~ In (FromWriter, DONE)
      (readable (snd (exec [Tick; Resume; Tick; Resume; Tick; Resume; Resume; Resume]
                        (initial (platform_with (Rejected "network down")) example_request)))) /\
  stream (snd (exec [Tick; Resume; Tick; Resume; Tick; Resume; Resume; Resume]
                 (initial (platform_with (Rejected "network down")) example_request)))
    = Closed.
Proof.
  destruct (failed_call_frames (platform_with (Rejected "network down")) example_request
              "network down" [Tick; Resume; Tick; Resume; Tick; Resume; Resume; Resume]
              eq_refl eq_refl eq_refl) as (_ & H1 & H2 & _).
  split; assumption.
Defined.

(** X2.  When consuming the response raises (its [text()] or [json()]
    rejects, or a read of its event stream fails), then under every
    schedule in which the client does not cancel the chunks relayed before
    the failure stay queued and are followed by one internal-error frame
    carrying the message, which is the last frame: the done marker is not
    written.  The stream is closed and nothing leaves the function. *)
Theorem failed_consumption_frames (platform : Platform) (request : Request)
    (response : Response) (e : string) (events : list Event) :
  upstream platform request = Fulfilled response ->
  snd (consumed response) = Some e ->
  undisturbed events ->
  settled (exec events (initial platform request)) = true ->
  (exists n,
     readable (snd (exec events (initial platform request))) =
       (heartbeats n ++ written (fst (consumed response)) ++
        [ (FromWriter, internalErrorFrame e) ])%list) /\
  (ok response = false \/ includes (contentType response) "text/event-stream" = false ->
   fst (consumed response) = []) /\
  (ok response = true -> includes (contentType response) "text/event-stream" = true ->
   fst (consumed response) = chunks response /\ failure response = Some e) /\
  stream (snd (exec events (initial platform request))) = Closed /\
  escaped (exec events (initial platform request)) = None.
Proof.
  intros Hu Hc Hev Hend.
  destruct (outcome_any platform request events Hev Hend) as (n & Hs & He).
  unfold terminal_frames in Hs. rewrite Hu, Hc in Hs.
  rewrite Hs, He. simpl.
  split; [ exists n; unfold written; rewrite map_app; reflexivity | ].
  split; [ | split; [ | split; reflexivity ] ].
  - unfold consumed in *. intros [Hok | Hct].
    + rewrite Hok in *. simpl in *. destruct (text response); [ discriminate | reflexivity ].
    + rewrite Hct in *. destruct (negb (ok response)).
      * destruct (text response); [ discriminate | reflexivity ].
      * destruct (json response); [ discriminate | reflexivity ].
  - unfold consumed in *. intros Hok Hct. rewrite Hok, Hct in *. simpl in *. auto.
Qed.

Lemma failed_consumption_frames_witness :
  exists n,
    readable (snd (exec (repeat Resume 7)
                     (initial (platform_with (Fulfilled broken_stream_200))
                        example_request))) =
      (heartbeats n ++ written [frame "1"] ++
       [ (FromWriter, internalErrorFrame "network error") ])%list.
Proof.
  destruct (failed_consumption_frames (platform_with (Fulfilled broken_stream_200))
              example_request broken_stream_200 "network error" (repeat Resume 7)
              eq_refl eq_refl eq_refl eq_refl) as (H & _).
  exact H.
Defined.

(** X3.  Whatever the upstream does, under every schedule in which the
    client does not cancel the function ends without an exception, with
    the stream closed, the flag true, the interval cleared and none of its
    writes turned down; and the catch block has run exactly when the call
    or the consumption of the response failed. *)
Theorem uncancelled_request_ends_closed (platform : Platform) (request : Request)
    (events : list Event) :
  undisturbed events ->
  settled (exec events (initial platform request)) = true ->
  escaped (exec events (initial platform request)) = None /\
  stream (snd (exec events (initial platform request))) = Closed /\
  flag (exec events (initial platform request)) = true /\
  heartbeatInterval (snd (exec events (initial platform request))) = false /\
  refused (snd (exec events (initial platform request))) = [] /\
  console (snd (exec events (initial platform request))) =
    (if fails platform request then ["KEEPALIVE mode error:"] else []).
Proof.
  intros Hev Hend.
  destruct (outcome_any platform request events Hev Hend) as (n & Hs & He).
  unfold flag. rewrite Hs, He. repeat split.
Qed.

Lemma uncancelled_request_ends_closed_witness :
  escaped (exec (repeat Resume 6)
             (initial (platform_with (Fulfilled broken_json_200)) example_request)) = None /\
  stream (snd (exec (repeat Resume 6)
                 (initial (platform_with (Fulfilled broken_json_200)) example_request)))
    = Closed.
Proof.
  destruct (uncancelled_request_ends_closed (platform_with (Fulfilled broken_json_200))
              example_request (repeat Resume 6) eq_refl eq_refl) as (H1 & H2 & _).
  split; assumption.
Defined.

(* ================================================================== *)
(** ** The stream is closed, and heartbeats are never turned down *)
(* ================================================================== *)

Lemma closes_seq (p q : Async) : closes p -> closes (seq p q).
Proof.
  induction p as [ | e | k IH | e k IH | c k IH | k IH ]; simpl; auto.
  contradiction.
Qed.

Lemma closes_closeWriter_then (e : string) : closes (seq closeWriter (Throw e)).
Proof. apply closes_seq. exact I. Qed.

Lemma closes_try_finally (p : Async) : closes (try_finally p closeWriter).
Proof.
  induction p as [ | e | k IH | e k IH | c k IH | k IH ]; simpl; auto.
Qed.

Lemma closes_processApiRequest (platform : Platform) (request : Request) :
  closes (processApiRequest platform request).
Proof. apply closes_try_finally. Qed.

Lemma put_keeps_finished (c : Chunk) (s : State) :
  open_stream s = false -> open_stream (snd (put c s)) = false.
Proof.
  unfold open_stream, put.
  destruct (stream s) eqn:Hs; simpl; rewrite ?Hs; auto.
Qed.

Lemma close_finishes (s : State) : open_stream (snd (writer_close s)) = false.
Proof.
  unfold open_stream, writer_close.
  destruct (stream s) eqn:Hs; simpl; rewrite ?Hs; reflexivity.
Qed.

Lemma effect_stream (e : Effect) (s : State) : stream (effect e s) = stream s.
Proof. destruct e; reflexivity. Qed.

Lemma run_keeps_finished (p : Async) :
  forall s, open_stream s = false -> open_stream (snd (run p s)) = false.
Proof.
  induction p as [ | e | k IH | e k IH | c k IH | k IH ]; intros s H; simpl; auto.
  - apply IH. unfold open_stream in *. rewrite effect_stream. exact H.
  - pose proof (put_keeps_finished (FromWriter, c) s H) as Hp. unfold writer_write.
    destruct (put (FromWriter, c) s) as [r s']. apply IH, Hp.
  - pose proof (close_finishes s) as Hc.
    destruct (writer_close s) as [r s']. apply IH, Hc.
Qed.

Lemma run_closes (p : Async) :
  forall s, closes p ->
            closes (fst (run p s)) \/ open_stream (snd (run p s)) = false.
Proof.
  induction p as [ | e | k IH | e k IH | c k IH | k IH ]; intros s H; simpl in *; auto.
  - destruct (writer_write c s) as [r s']. apply IH, H.
  - pose proof (close_finishes s) as Hc.
    destruct (writer_close s) as [r s']. right. apply run_keeps_finished, Hc.
Qed.

Lemma step_closes (ev : Event) (a : Adapter) :
  closes (fst a) \/ open_stream (snd a) = false ->
  closes (fst (step ev a)) \/ open_stream (snd (step ev a)) = false.
Proof.
  destruct a as [task s]. simpl. intro H.
  destruct ev as [ | reason | ]; simpl.
  - destruct (heartbeatInterval s); simpl; auto.
    destruct H as [H | H]; [ left; exact H | right ].
    unfold onHeartbeat, controller_enqueue.
    destruct (isProcessingComplete s); simpl; auto.
    pose proof (put_keeps_finished (FromHeartbeat, heartbeat) s H) as Hp.
    destruct (put (FromHeartbeat, heartbeat) s) as [[ | e] s']; simpl in *; auto.
  - destruct (stream s) eqn:Hs; simpl; auto.
  - destruct task as [ | e | k | e k | c k | k ]; simpl; auto.
    destruct H as [H | H]; [ apply run_closes, H | right; apply run_keeps_finished, H ].
Qed.

Lemma exec_closes (events : list Event) :
  forall a,
    closes (fst a) \/ open_stream (snd a) = false ->
    closes (fst (exec events a)) \/ open_stream (snd (exec events a)) = false.
Proof.
  induction events as [ | ev events IH ]; intros a H; [ exact H | ].
  rewrite exec_cons. apply IH, step_closes, H.
Qed.

(** The stream goes from open to closed or to cancelled, and stays. *)
Lemma run_stream (p : Async) :
  forall s,
    stream (snd (run p s)) = stream s \/
    (stream s = Writable /\ stream (snd (run p s)) = Closed).
Proof.
  induction p as [ | e | k IH | e k IH | c k IH | k IH ]; intro s; simpl; auto.
  - destruct (IH (effect e s)) as [H | [H1 H2]]; rewrite effect_stream in *; auto.
  - unfold writer_write, put.
    destruct (stream s) eqn:Hs;
      match goal with
      | |- context [run (k ?r') ?s'] => destruct (IH r' s') as [H | [H1 H2]]
      end; simpl in *; try discriminate; rewrite ?Hs in *; auto.
  - unfold writer_close.
    destruct (stream s) eqn:Hs;
      match goal with
      | |- context [run (k ?r') ?s'] => destruct (IH r' s') as [H | [H1 H2]]
      end; simpl in *; try discriminate; rewrite ?Hs in *; auto.
Qed.

Lemma step_errored_origin (ev : Event) (a : Adapter) (reason : string) :
  stream (snd (step ev a)) = Errored reason ->
  stream (snd a) = Errored reason \/ ev = Cancel reason.
Proof.
  destruct a as [task s]. simpl.
  destruct ev as [ | reason' | ]; simpl.
  - destruct (heartbeatInterval s); simpl; auto.
    unfold onHeartbeat, controller_enqueue, put.
    destruct (isProcessingComplete s); simpl; auto.
    destruct (stream s) eqn:Hs; simpl; rewrite ?Hs; auto.
  - destruct (stream s) eqn:Hs; simpl; rewrite ?Hs; auto.
    intro H. injection H as ->. auto.
  - destruct task as [ | e | k | e k | c k | k ]; simpl; auto.
    destruct (run_stream k s) as [H | [H1 H2]]; intro He.
    + left. congruence.
    + congruence.
Qed.

Lemma exec_errored_origin (events : list Event) (reason : string) :
  forall a,
    stream (snd (exec events a)) = Errored reason ->
    stream (snd a) = Errored reason \/ In (Cancel reason) events.
Proof.
  induction events as [ | ev events IH ]; intros a H; [ auto | ].
  rewrite exec_cons in H.
  destruct (IH _ H) as [H' | H']; [ | right; right; exact H' ].
  destruct (step_errored_origin ev a reason H') as [H'' | ->]; [ auto | right; left; reflexivity ].
Qed.

(** X4.  Under every interleaving, cancellation included, when the
    function has run to its end the stream is not left open: the function
    has closed it, or the client has cancelled it, with the reason the
    stream records. *)
Theorem stream_never_left_open (platform : Platform) (request : Request)
    (events : list Event) :
  settled (exec events (initial platform request)) = true ->
  stream (snd (exec events (initial platform request))) = Closed \/
  exists reason,
    stream (snd (exec events (initial platform request))) = Errored reason /\
    In (Cancel reason) events.
Proof.
  intro Hend.
  assert (H : closes (fst (exec events (initial platform request))) \/
              open_stream (snd (exec events (initial platform request))) = false).
  { apply exec_closes. left. rewrite initial_task. apply closes_processApiRequest. }
  destruct H as [H | H].
  - destruct (exec events (initial platform request)) as [task s].
    unfold settled in Hend. simpl in *. destruct task; try discriminate; contradiction.
  - unfold open_stream in H.
    destruct (stream (snd (exec events (initial platform request)))) as [ | reason | ] eqn:Hs;
      [ discriminate | right | left; reflexivity ].
    exists reason. split; [ reflexivity | ].
    destruct (exec_errored_origin events reason _ Hs) as [H0 | H0]; [ | exact H0 ].
    rewrite initial_task in H0. discriminate H0.
Qed.

Lemma stream_never_left_open_witness :
  stream (snd (exec [Tick; Resume; Cancel "tab closed"; Resume; Resume; Resume; Resume; Resume]
                 (initial (platform_with (Fulfilled json_200)) example_request))) = Closed \/
  exists reason,
    stream (snd (exec [Tick; Resume; Cancel "tab closed"; Resume; Resume; Resume; Resume;
                       Resume]
                   (initial (platform_with (Fulfilled json_200)) example_request)))
      = Errored reason /\
    In (Cancel reason)
       [Tick; Resume; Cancel "tab closed"; Resume; Resume; Resume; Resume; Resume].
Proof.
  apply (stream_never_left_open (platform_with (Fulfilled json_200)) example_request
           [Tick; Resume; Cancel "tab closed"; Resume; Resume; Resume; Resume; Resume]).
  reflexivity.
Defined.

Lemma step_refused_heartbeats (ev : Event) (a : Adapter) :
  invariant a ->
  filter from_heartbeat (refused (snd (step ev a))) =
  filter from_heartbeat (refused (snd a)).
Proof.
  intros (Hp & Hc & _).
  destruct a as [task s]. unfold flag in *. simpl in *.
  destruct ev as [ | reason | ]; simpl.
  - destruct (isProcessingComplete s) eqn:Hf.
    + rewrite (Hc eq_refl). reflexivity.
    + pose proof (onHeartbeat_pending (task, s) Hf (Hp eq_refl)) as Hb. simpl in Hb.
      destruct (heartbeatInterval s); [ rewrite Hb | ]; reflexivity.
  - destruct (stream s); reflexivity.
  - destruct task as [ | e | k | e k | c k | k ]; try reflexivity.
    destruct (run_writes k s) as (ws & rs & _ & H & _ & Hrs).
    rewrite H, filter_app, (filter_heartbeat_writer rs Hrs), app_nil_r. reflexivity.
Qed.

(** X5.  Under every interleaving, cancellation included, the enqueue of
    the interval callback never fails: a tick either does nothing (the
    flag is true) or queues exactly one heartbeat, so the catch branch of
    the callback never runs, and no heartbeat is ever turned down by the
    stream. *)
Theorem heartbeat_enqueue_never_fails (platform : Platform) (request : Request)
    (events : list Event) :
  step Tick (exec events (initial platform request)) =
    (fst (exec events (initial platform request)),
     if flag (exec events (initial platform request))
     then snd (exec events (initial platform request))
     else beat 1 (snd (exec events (initial platform request)))) /\
  filter from_heartbeat (refused (snd (exec events (initial platform request)))) = [].
Proof.
  split.
  - pose proof (reachable_invariant platform request events) as (Hp & Hc & _).
    destruct (flag (exec events (initial platform request))) eqn:Hf.
    + specialize (Hc eq_refl).
      destruct (exec events (initial platform request)) as [task s]. simpl in *.
      rewrite Hc. reflexivity.
    + pose proof (onHeartbeat_pending _ Hf (Hp eq_refl)) as Hb.
      destruct (Hp eq_refl) as (Hi & _).
      destruct (exec events (initial platform request)) as [task s]. simpl in *.
      rewrite Hi, Hb. reflexivity.
  - induction events as [ | ev events IH ] using rev_ind.
    + rewrite initial_task. reflexivity.
    + rewrite exec_app. simpl.
      rewrite step_refused_heartbeats by apply reachable_invariant. exact IH.
Qed.

Lemma ticks_while_pending (p : Async) (n : nat) :
  forall m,
    exec (repeat Tick n) (p, beat m opened) = (p, beat (n + m) opened).
Proof.
  induction n as [ | n IH ]; intro m; [ reflexivity | ].
  simpl repeat. rewrite exec_cons.
  replace (step Tick (p, beat m opened)) with (p, beat (S m) opened).
  - rewrite IH. f_equal. f_equal. lia.
  - unfold step, onHeartbeat, controller_enqueue, put, beat, heartbeats. simpl.
    rewrite <- repeat_cons. reflexivity.
Qed.

(** X6.  While the upstream call has not settled nothing stops the
    heartbeats: after [n] ticks the client has been sent [n] heartbeats
    and nothing else, the flag is false, the stream is open and the
    function is still suspended, for every [n]. *)
Theorem heartbeats_without_bound (platform : Platform) (request : Request) (n : nat) :
  readable (snd (exec (repeat Tick n) (initial platform request))) = heartbeats n /\
  flag (exec (repeat Tick n) (initial platform request)) = false /\
  stream (snd (exec (repeat Tick n) (initial platform request))) = Writable /\
  settled (exec (repeat Tick n) (initial platform request)) = false.
Proof.
  rewrite initial_task.
  replace opened with (beat 0 opened) by apply beat_0.
  rewrite ticks_while_pending, Nat.add_0_r.
  unfold flag, settled. simpl. repeat split.
  unfold processApiRequest. destruct (body request); reflexivity.
Qed.

(* ================================================================== *)
(** ** The key that is chosen *)
(* ================================================================== *)

Lemma occurs_app (c : ascii) (a b : string) :
  occurs c (a ++ b) = occurs c a || occurs c b.
Proof.
  induction a as [ | c' a IH ]; simpl; [ reflexivity | ].
  rewrite IH, orb_assoc. reflexivity.
Qed.

Lemma occurs_rev (c : ascii) (s : string) : occurs c (rev s) = occurs c s.
Proof.
  induction s as [ | c' s IH ]; simpl; [ reflexivity | ].
  rewrite occurs_app, IH. simpl. rewrite orb_false_r. apply orb_comm.
Qed.

Lemma occurs_drop (c : ascii) (n : nat) :
  forall s, occurs c s = false -> occurs c (drop n s) = false.
Proof.
  induction n as [ | n IH ]; intros s H; [ exact H | ].
  destruct s as [ | c' s ]; simpl; [ reflexivity | ].
  simpl in H. apply orb_false_iff in H as [_ H]. apply IH, H.
Qed.

Lemma occurs_strip_all (c : ascii) (seqs : list string) (fuel : nat) :
  forall s, occurs c s = false -> occurs c (strip_all fuel seqs s) = false.
Proof.
  induction fuel as [ | fuel IH ]; intros s H; simpl; [ exact H | ].
  destruct (strip_one seqs s) as [rest | ] eqn:Hr; [ | exact H ].
  apply IH. clear IH. revert Hr.
  induction seqs as [ | w more IHs ]; simpl; [ discriminate | ].
  destruct (String.prefix w s); [ | exact IHs ].
  intro Hr. injection Hr as <-. apply occurs_drop, H.
Qed.

Lemma occurs_trim (c : ascii) (s : string) :
  occurs c s = false -> occurs c (trim s) = false.
Proof.
  intro H. unfold trim, trimEnd, trimStart.
  rewrite occurs_rev. apply occurs_strip_all.
  rewrite occurs_rev. apply occurs_strip_all, H.
Qed.

Lemma split_pieces (sep : ascii) (s : string) :
  forall piece, In piece (split sep s) -> occurs sep piece = false.
Proof.
  induction s as [ | c s IH ]; simpl; intros piece Hin.
  - destruct Hin as [<- | []]. reflexivity.
  - destruct (Ascii.eqb c sep) eqn:E.
    + destruct Hin as [<- | Hin]; [ reflexivity | apply IH, Hin ].
    + destruct (split sep s) as [ | tok toks ].
      * destruct Hin as [<- | []]. simpl. rewrite E. reflexivity.
      * destruct Hin as [<- | Hin].
        -- simpl. rewrite E. apply IH. left. reflexivity.
        -- apply IH. right. exact Hin.
Qed.

Lemma includes_char (c : ascii) (s : string) :
  includes s (String c EmptyString) = occurs c s.
Proof.
  induction s as [ | c' s IH ]; simpl; [ reflexivity | ].
  destruct (ascii_dec c c') as [-> | Hne].
  - rewrite Ascii.eqb_refl. destruct s; reflexivity.
  - rewrite IH. destruct (Ascii.eqb c' c) eqn:E; [ | reflexivity ].
    apply Ascii.eqb_eq in E. congruence.
Qed.

Lemma tokens_have_no_comma (keys token : string) :
  In token (filter Boolean (map trim (split "," keys))) ->
  includes token "," = false /\ token <> EmptyString.
Proof.
  intro Hin. apply filter_In in Hin as [Hin Hb].
  apply in_map_iff in Hin as (piece & <- & Hin).
  split.
  - rewrite includes_char. apply occurs_trim, (split_pieces _ keys), Hin.
  - intro He. rewrite He in Hb. discriminate Hb.
Qed.

Lemma index_cases (a : list string) (i : Z) :
  index a i = "undefined" \/ In (index a i) a.
Proof.
  unfold index. destruct (i <? 0)%Z; [ left; reflexivity | ].
  destruct (nth_error a (Z.to_nat i)) as [x | ] eqn:Hn; [ right | left; reflexivity ].
  eapply nth_error_In, Hn.
Qed.

(** The call changes nothing when the key has no comma. *)
Lemma prepareTargetUrl_without_comma (random : Random) (url : URL) (key : string) :
  get (searchParams url) "key" = Some key ->
  includes key "," = false ->
  prepareTargetUrl random url =
    ("https://" ++ TARGET_HOST ++ pathname url ++ "?" ++ toString (searchParams url), url).
Proof.
  intros Hk Hc. destruct url as [path params]. unfold prepareTargetUrl. simpl in *.
  rewrite Hk, Hc, andb_false_r. reflexivity.
Qed.

(** X7.  The key the function writes is never a list again: it is not
    empty and holds no comma, so the function applied to the URL it has
    rewritten, with any draw, changes nothing and returns the same target
    URL. *)
Theorem prepareTargetUrl_settles_the_key (random again : Random) (url : URL) :
  prepareTargetUrl again (snd (prepareTargetUrl random url)) =
    prepareTargetUrl random url /\
  (forall keys,
     get (searchParams url) "key" = Some keys ->
     includes keys "," = true ->
     filter Boolean (map trim (split "," keys)) <> [] ->
     exists chosen,
       get (searchParams (snd (prepareTargetUrl random url))) "key" = Some chosen /\
       includes chosen "," = false /\
       chosen <> EmptyString).
Proof.
  destruct url as [path params]. simpl searchParams.
  assert (Hfree :
    forall keys,
      includes keys "," = true ->
      includes (index (filter Boolean (map trim (split "," keys)))
                  (floor_times random
                     (List.length (filter Boolean (map trim (split "," keys))))))
               "," = false /\
      index (filter Boolean (map trim (split "," keys)))
        (floor_times random (List.length (filter Boolean (map trim (split "," keys)))))
        <> EmptyString).
  { intros keys Hc.
    destruct (index_cases (filter Boolean (map trim (split "," keys)))
                (floor_times random
                   (List.length (filter Boolean (map trim (split "," keys))))))
      as [-> | Hin].
    - split; [ reflexivity | discriminate ].
    - apply (tokens_have_no_comma keys), Hin. }
  split.
  - destruct (get params "key") as [keys | ] eqn:Hk.
    + destruct (Boolean keys && includes keys ",") eqn:Hb.
      * destruct (filter Boolean (map trim (split "," keys))) as [ | t ts ] eqn:Hf.
        -- assert (H : forall r, prepareTargetUrl r (mkURL path params) =
                         ("https://" ++ TARGET_HOST ++ path ++ "?" ++ toString params,
                          mkURL path params))
             by (intro r; unfold prepareTargetUrl; simpl; rewrite Hk, Hb, Hf; reflexivity).
           rewrite (H random). simpl snd. apply H.
        -- apply andb_true_iff in Hb as [Hb Hc].
           destruct (Hfree keys Hc) as [Hn _]. rewrite Hf in Hn.
           assert (H : prepareTargetUrl random (mkURL path params) =
                       ("https://" ++ TARGET_HOST ++ path ++ "?"
                        ++ toString
                             (set params "key"
                                (index (t :: ts)
                                   (floor_times random (List.length (t :: ts))))),
                        mkURL path
                          (set params "key"
                             (index (t :: ts)
                                (floor_times random (List.length (t :: ts)))))))
             by (unfold prepareTargetUrl; simpl; rewrite Hk, Hb, Hc, Hf; reflexivity).
           rewrite H. simpl snd.
           exact (prepareTargetUrl_without_comma again
                    (mkURL path
                       (set params "key"
                          (index (t :: ts) (floor_times random (List.length (t :: ts))))))
                    (index (t :: ts) (floor_times random (List.length (t :: ts))))
                    (get_set params "key" _) Hn).
      * assert (H : forall r, prepareTargetUrl r (mkURL path params) =
                       ("https://" ++ TARGET_HOST ++ path ++ "?" ++ toString params,
                        mkURL path params))
          by (intro r; unfold prepareTargetUrl; simpl; rewrite Hk, Hb; reflexivity).
        rewrite (H random). simpl snd. apply H.
    + assert (H : forall r, prepareTargetUrl r (mkURL path params) =
                     ("https://" ++ TARGET_HOST ++ path ++ "?" ++ toString params,
                      mkURL path params))
        by (intro r; unfold prepareTargetUrl; simpl; rewrite Hk; reflexivity).
      rewrite (H random). simpl snd. apply H.
  - intros keys Hk Hc Ht. destruct (Hfree keys Hc) as [Hn He].
    unfold prepareTargetUrl. simpl.
    rewrite Hk, Hc, (includes_nonempty keys "," Hc) by discriminate. simpl.
    destruct (filter Boolean (map trim (split "," keys))) as [ | t ts ] eqn:Hf;
      [ contradiction Ht; reflexivity | ].
    change (Nat.ltb 0 (List.length (t :: ts))) with true. cbv iota. simpl searchParams.
    eexists. split; [ apply get_set | split; assumption ].
Qed.

Lemma prepareTargetUrl_settles_the_key_witness :
  exists chosen,
    get (searchParams (snd (prepareTargetUrl (mkRandom 0 1) two_keys_url))) "key"
      = Some chosen /\
    includes chosen "," = false /\
    chosen <> EmptyString.
Proof.
  destruct (prepareTargetUrl_settles_the_key (mkRandom 0 1) (mkRandom 0 1) two_keys_url)
    as [_ H].
  apply (H "a,b"); [ reflexivity | reflexivity | discriminate ].
Defined.

Lemma key_entries_without (params : URLSearchParams) :
  key_entries (without "key" params) = [].
Proof.
  unfold key_entries, without.
  induction params as [ | [n v] rest IH ]; simpl; [ reflexivity | ].
  destruct (String.eqb n "key") eqn:E; simpl; [ exact IH | ].
  rewrite E. exact IH.
Qed.

Lemma key_entries_set (params : URLSearchParams) (value : string) :
  key_entries (set params "key" value) = [("key", value)].
Proof.
  induction params as [ | [n v] rest IH ]; simpl; [ reflexivity | ].
  destruct (String.eqb n "key") eqn:E; simpl.
  - f_equal. apply key_entries_without.
  - unfold key_entries in *. simpl. rewrite E. exact IH.
Qed.

(** X8.  Only the first [key] parameter of the request is consulted.
    When it lists keys of which one is left after trimming, the rewritten
    URL has exactly one [key] parameter, however many the request had. *)
Theorem chosen_key_is_the_only_key (random : Random) (url : URL) (keys : string) :
  get (searchParams url) "key" = Some keys ->
  includes keys "," = true ->
  filter Boolean (map trim (split "," keys)) <> [] ->
  exists chosen,
    key_entries (searchParams (snd (prepareTargetUrl random url))) = [("key", chosen)] /\
    chosen = index (filter Boolean (map trim (split "," keys)))
               (floor_times random
                  (List.length (filter Boolean (map trim (split "," keys))))).
Proof.
  intros Hk Hc Ht. destruct url as [path params]. unfold prepareTargetUrl. simpl in *.
  rewrite Hk, Hc, (includes_nonempty keys "," Hc) by discriminate.
  destruct (filter Boolean (map trim (split "," keys))) as [ | t ts ] eqn:Hf;
    [ contradiction Ht; reflexivity | ].
  change (Nat.ltb 0 (List.length (t :: ts))) with true. cbv iota.
  eexists. split; [ apply key_entries_set | reflexivity ].
Qed.

Lemma chosen_key_is_the_only_key_witness :
  exists chosen,
    key_entries
      (searchParams
         (snd (prepareTargetUrl (mkRandom 1 2)
                 (mkURL "/v1beta/models" [("key", "a, b"); ("alt", "sse"); ("key", "c")]))))
      = [("key", chosen)] /\
    chosen = index (filter Boolean (map trim (split "," "a, b")))
               (floor_times (mkRandom 1 2)
                  (List.length (filter Boolean (map trim (split "," "a, b"))))).
Proof.
  apply (chosen_key_is_the_only_key (mkRandom 1 2)
           (mkURL "/v1beta/models" [("key", "a, b"); ("alt", "sse"); ("key", "c")])
           "a, b");
    [ reflexivity | reflexivity | discriminate ].
Defined.

(* ================================================================== *)
(** ** The entry point and the handlers without a stream *)
(* ================================================================== *)

Lemma append_nil_r (s : string) : s ++ EmptyString = s.
Proof. induction s as [ | c s IH ]; simpl; [ | rewrite IH ]; reflexivity. Qed.

Lemma append_assoc (a b c : string) : (a ++ b) ++ c = a ++ (b ++ c).
Proof. induction a as [ | x a IH ]; simpl; [ | rewrite IH ]; reflexivity. Qed.

Lemma rev_append (a b : string) : rev (a ++ b) = rev b ++ rev a.
Proof.
  induction a as [ | x a IH ]; simpl.
  - rewrite append_nil_r. reflexivity.
  - rewrite IH, append_assoc. reflexivity.
Qed.

Lemma rev_rev (s : string) : rev (rev s) = s.
Proof.
  induction s as [ | c s IH ]; simpl; [ reflexivity | ].
  rewrite rev_append, IH. reflexivity.
Qed.

Lemma prefix_append (a b : string) :
  String.prefix a b = true <-> exists rest, b = a ++ rest.
Proof.
  revert b. induction a as [ | x a IH ]; intro b.
  - destruct b; simpl; split; eauto.
  - destruct b as [ | y b ]; simpl.
    + split; [ discriminate | intros [rest H]; discriminate H ].
    + destruct (ascii_dec x y) as [-> | Hne].
      * rewrite IH. split; intros [rest H]; exists rest; congruence.
      * split; [ discriminate | intros [rest H]; congruence ].
Qed.

Lemma endsWith_append (s suffix : string) :
  endsWith s suffix = true <-> exists front, s = front ++ suffix.
Proof.
  unfold endsWith. rewrite prefix_append. split.
  - intros [rest H]. exists (rev rest).
    rewrite <- (rev_rev s), H, rev_append, rev_rev. reflexivity.
  - intros [front ->]. exists (rev front). apply rev_append.
Qed.

(** X9.  How a request is dispatched.  The method OPTIONS is answered at
    once with the 204 preflight response, whatever the path.  Any other
    request is answered by the keep-alive stream exactly when [KEEPALIVE]
    is not the string [false] (being undefined counts as enabled) and
    the path, not the query, ends in [:streamGenerateContent]; otherwise
    it goes to the pass-through. *)
Theorem dispatch (runtime : Runtime) (request : Request) :
  (method request = "OPTIONS" ->
   Default.fetch runtime request =
     Preflight (mkPlainResponse 204 EmptyString (new_Headers CORS_HEADERS) None)) /\
  (method request <> "OPTIONS" ->
   KEEPALIVE runtime <> Some "false" ->
   (exists front, pathname (url request) = front ++ ":streamGenerateContent") ->
   Default.fetch runtime request =
     Streamed (fst (handleKeepAliveStream (platform_of runtime) request))
              (snd (handleKeepAliveStream (platform_of runtime) request))) /\
  (method request <> "OPTIONS" ->
   KEEPALIVE runtime = Some "false" \/
   ~ (exists front, pathname (url request) = front ++ ":streamGenerateContent") ->
   Default.fetch runtime request = Proxied (handleStandardProxy runtime request)).
Proof.
  unfold Default.fetch. split; [ | split ].
  - intros ->. reflexivity.
  - intros Hm Hk Hp. apply String.eqb_neq in Hm. rewrite Hm.
    apply endsWith_append in Hp. rewrite Hp, andb_true_r.
    unfold KEEPALIVE_ENABLED.
    destruct (KEEPALIVE runtime) as [value | ]; [ | reflexivity ].
    destruct (String.eqb value "false") eqn:E; [ | reflexivity ].
    apply String.eqb_eq in E. subst value. contradiction Hk. reflexivity.
  - intros Hm Hcase. apply String.eqb_neq in Hm. rewrite Hm.
    destruct Hcase as [Hk | Hp].
    + unfold KEEPALIVE_ENABLED. rewrite Hk. reflexivity.
    + destruct (endsWith (pathname (url request)) ":streamGenerateContent") eqn:E.
      * apply endsWith_append in E. contradiction.
      * rewrite andb_false_r. reflexivity.
Qed.

Lemma dispatch_witness :
  Default.fetch (example_runtime (Some "0") (Fulfilled fetched_404)) example_request =
    Streamed
      (fst (handleKeepAliveStream
              (platform_of (example_runtime (Some "0") (Fulfilled fetched_404)))
              example_request))
      (snd (handleKeepAliveStream
              (platform_of (example_runtime (Some "0") (Fulfilled fetched_404)))
              example_request)) /\
  Default.fetch (example_runtime (Some "false") (Fulfilled fetched_404)) example_request =
    Proxied (handleStandardProxy (example_runtime (Some "false") (Fulfilled fetched_404))
               example_request).
Proof.
  split.
  - apply (dispatch (example_runtime (Some "0") (Fulfilled fetched_404)) example_request).
    + discriminate.
    + discriminate.
    + exists "/v1beta/models/gemini-pro". reflexivity.
  - apply (dispatch (example_runtime (Some "false") (Fulfilled fetched_404))
             example_request).
    + discriminate.
    + left. reflexivity.
Defined.

Lemma get_without_other (params : URLSearchParams) (gone name : string) :
  gone <> name -> get (without gone params) name = get params name.
Proof.
  intro Hne. unfold without.
  induction params as [ | [n v] rest IH ]; simpl; [ reflexivity | ].
  destruct (String.eqb n gone) eqn:E; simpl.
  - apply String.eqb_eq in E. subst n.
    apply String.eqb_neq in Hne. rewrite Hne. exact IH.
  - destruct (String.eqb n name); [ reflexivity | exact IH ].
Qed.

Lemma headers_get_set_same (h : Headers) (name name' value : string) :
  toLowerCase name' = toLowerCase name ->
  headers_get (headers_set h name value) name' = Some value.
Proof.
  unfold headers_get. intros ->.
  induction h as [ | [n v] rest IH ]; simpl.
  - rewrite String.eqb_refl. reflexivity.
  - destruct (String.eqb n (toLowerCase name)) eqn:E; simpl; rewrite E; auto.
Qed.

Lemma headers_get_set_other (h : Headers) (name name' value : string) :
  toLowerCase name' <> toLowerCase name ->
  headers_get (headers_set h name value) name' = headers_get h name'.
Proof.
  unfold headers_get. intro Hne.
  induction h as [ | [n v] rest IH ]; simpl.
  - destruct (String.eqb (toLowerCase name) (toLowerCase name')) eqn:E;
      [ apply String.eqb_eq in E; congruence | reflexivity ].
  - destruct (String.eqb n (toLowerCase name)) eqn:E; simpl.
    + apply String.eqb_eq in E. subst n.
      destruct (String.eqb (toLowerCase name) (toLowerCase name')) eqn:E';
        [ apply String.eqb_eq in E'; congruence | ].
      apply get_without_other. congruence.
    + destruct (String.eqb n (toLowerCase name')); [ reflexivity | exact IH ].
Qed.

(** The three CORS headers after [Object.entries(CORS_HEADERS).forEach]. *)
Lemma cors_headers_set (h : Headers) :
  headers_get (headers_set_all h CORS_HEADERS) "Access-Control-Allow-Origin"
    = Some "*" /\
  headers_get (headers_set_all h CORS_HEADERS) "Access-Control-Allow-Methods"
    = Some "GET, POST, OPTIONS" /\
  headers_get (headers_set_all h CORS_HEADERS) "Access-Control-Allow-Headers"
    = Some "Content-Type, Authorization".
Proof.
  unfold headers_set_all, CORS_HEADERS. simpl fold_left.
  repeat split.
  - rewrite !headers_get_set_other by (simpl; discriminate).
    apply headers_get_set_same. reflexivity.
  - rewrite headers_get_set_other by (simpl; discriminate).
    apply headers_get_set_same. reflexivity.
  - apply headers_get_set_same. reflexivity.
Qed.

Lemma other_headers_kept (h : Headers) (name : string) :
  cors_name name = false ->
  headers_get (headers_set_all h CORS_HEADERS) name = headers_get h name.
Proof.
  unfold cors_name, CORS_HEADERS, headers_set_all. cbn [existsb fold_left fst snd].
  intro H.
  apply orb_false_iff in H as [H1 H].
  apply orb_false_iff in H as [H2 H].
  apply orb_false_iff in H as [H3 _].
  apply String.eqb_neq in H1, H2, H3.
  rewrite !headers_get_set_other by congruence. reflexivity.
Qed.

(** X10.  Every response the worker returns carries the three CORS
    headers with their fixed values, whichever handler serves it: the
    preflight, the keep-alive stream, or the pass-through, where they
    replace what the upstream sent under those names. *)
Theorem every_response_has_cors (runtime : Runtime) (request : Request) (h : Headers) :
  served_headers (Default.fetch runtime request) = Some h ->
  headers_get h "Access-Control-Allow-Origin" = Some "*" /\
  headers_get h "Access-Control-Allow-Methods" = Some "GET, POST, OPTIONS" /\
  headers_get h "Access-Control-Allow-Headers" = Some "Content-Type, Authorization".
Proof.
  unfold Default.fetch.
  destruct (String.eqb (method request) "OPTIONS").
  - intro H. injection H as <-. repeat split.
  - destruct (KEEPALIVE_ENABLED runtime
              && endsWith (pathname (url request)) ":streamGenerateContent").
    + intro H. injection H as <-. repeat split.
    + unfold handleStandardProxy.
      destruct (body request) as [ [ content | e ] | ]; simpl;
        try destruct (runtime_fetch runtime _) as [ fetched | e' ]; simpl;
        try discriminate; intro H; injection H as <-; apply cors_headers_set.
Qed.

Lemma every_response_has_cors_witness :
  headers_get
    (headers_set_all (headers_of fetched_404) CORS_HEADERS)
    "Access-Control-Allow-Origin" = Some "*".
Proof.
  destruct (every_response_has_cors (example_runtime None (Fulfilled fetched_404))
              models_request
              (headers_set_all (headers_of fetched_404) CORS_HEADERS) eq_refl)
    as [H _].
  exact H.
Defined.

(** X11.  The pass-through hands the upstream response on: the status,
    the status text and the body are the upstream's, whatever the status;
    every header that is not one of the three CORS headers is the
    upstream's; and when the upstream call fails the handler fails with
    the same error, without building a response. *)
Theorem pass_through_response (runtime : Runtime) (request : Request) :
  (forall fetched,
     proxy_call runtime request = Fulfilled fetched ->
     exists response,
       handleStandardProxy runtime request = Fulfilled response /\
       plain_status response = status (response_of fetched) /\
       plain_statusText response = statusText (response_of fetched) /\
       plain_body response =
         Some (chunks (response_of fetched), failure (response_of fetched)) /\
       (forall name,
          cors_name name = false ->
          headers_get (plain_headers response) name =
          headers_get (headers_of fetched) name)) /\
  (forall e,
     proxy_call runtime request = Rejected e ->
     handleStandardProxy runtime request = Rejected e).
Proof.
  unfold proxy_call, handleStandardProxy. split.
  - intros fetched H.
    destruct (body request) as [ [ content | e ] | ]; try discriminate H;
      rewrite H; eexists; (split; [ reflexivity | ]); simpl;
      repeat split; intros name Hn; apply other_headers_kept, Hn.
  - intros e H.
    destruct (body request) as [ [ content | e' ] | ]; try rewrite H; try reflexivity.
    injection H as ->. reflexivity.
Qed.

Lemma pass_through_response_witness :
  exists response,
    handleStandardProxy (example_runtime (Some "false") (Fulfilled fetched_404))
      models_request = Fulfilled response /\
    plain_status response = 404%Z /\
    headers_get (plain_headers response) "X-Request-Id" = Some "42".
Proof.
  destruct (pass_through_response (example_runtime (Some "false") (Fulfilled fetched_404))
              models_request) as [H _].
  destruct (H fetched_404 eq_refl) as (response & H1 & H2 & _ & _ & H5).
  exists response. split; [ exact H1 | split; [ exact H2 | ] ].
  rewrite (H5 "X-Request-Id" eq_refl). reflexivity.
Defined.

(* ================================================================== *)
(** ** What is sent upstream, and what a JSON frame looks like *)
(* ================================================================== *)

Lemma replace_suffix (front : string) :
  occurs ":" front = false ->
  replace (front ++ ":streamGenerateContent") ":streamGenerateContent" ":generateContent"
    = front ++ ":generateContent".
Proof.
  induction front as [ | c front IH ]; intro H; [ reflexivity | ].
  simpl in H. apply orb_false_iff in H as [Hc H].
  change (replace (String c front ++ ":streamGenerateContent")
            ":streamGenerateContent" ":generateContent")
    with (if String.prefix ":streamGenerateContent"
               (String c (front ++ ":streamGenerateContent"))
          then ":generateContent"
               ++ drop (String.length ":streamGenerateContent")
                    (String c (front ++ ":streamGenerateContent"))
          else String c (replace (front ++ ":streamGenerateContent")
                           ":streamGenerateContent" ":generateContent")).
  assert (Hp : String.prefix ":streamGenerateContent"
                 (String c (front ++ ":streamGenerateContent")) = false).
  { cbn -[ascii_dec].
    destruct (ascii_dec ":" c) as [<- | _]; [ discriminate Hc | reflexivity ]. }
  rewrite Hp, (IH H). reflexivity.
Qed.

(** X12.  What is asked of the upstream.  For an adapted request whose
    path is some front without a colon followed by
    [:streamGenerateContent], the call goes to the same host and front
    with [:generateContent] instead, with the parameters of the request
    after the choice of the key, and with the method, the headers and
    the buffered body of the request; it is not made when the body
    cannot be buffered.  The pass-through calls the path of the request
    as it is. *)
Theorem upstream_call_target (platform : Platform) (runtime : Runtime)
    (request : Request) :
  (forall front,
     pathname (url request) = front ++ ":streamGenerateContent" ->
     occurs ":" front = false ->
     upstream platform request =
       match body request with
       | None =>
           fetch platform
             (mkForward
                ("https://generativelanguage.googleapis.com" ++ front
                 ++ ":generateContent" ++ "?"
                 ++ toString (searchParams
                                (snd (prepareTargetUrl (Math_random platform)
                                        (url request)))))
                (method request) (headers request) None)
       | Some (Fulfilled buffered) =>
           fetch platform
             (mkForward
                ("https://generativelanguage.googleapis.com" ++ front
                 ++ ":generateContent" ++ "?"
                 ++ toString (searchParams
                                (snd (prepareTargetUrl (Math_random platform)
                                        (url request)))))
                (method request) (headers request) (Some buffered))
       | Some (Rejected e) => Rejected e
       end) /\
  proxy_call runtime request =
    match body request with
    | None =>
        runtime_fetch runtime
          (mkForward
             ("https://generativelanguage.googleapis.com" ++ pathname (url request) ++ "?"
              ++ toString (searchParams
                             (snd (prepareTargetUrl (runtime_random runtime)
                                     (url request)))))
             (method request) (headers request) None)
    | Some (Fulfilled content) =>
        runtime_fetch runtime
          (mkForward
             ("https://generativelanguage.googleapis.com" ++ pathname (url request) ++ "?"
              ++ toString (searchParams
                             (snd (prepareTargetUrl (runtime_random runtime)
                                     (url request)))))
             (method request) (headers request) (Some content))
    | Some (Rejected e) => Rejected e
    end.
Proof.
  split.
  - intros front Hp Hc. unfold upstream, forwardRequest.
    rewrite Hp, (replace_suffix front Hc).
    destruct (url request) as [path params]. unfold prepareTargetUrl. simpl.
    rewrite append_assoc. reflexivity.
  - unfold proxy_call.
    destruct (url request) as [path params]. unfold prepareTargetUrl. simpl.
    reflexivity.
Qed.

Lemma upstream_call_target_witness :
  upstream (platform_with (Fulfilled json_200)) example_request =
    fetch (platform_with (Fulfilled json_200))
      (mkForward
         "https://generativelanguage.googleapis.com/v1beta/models/gemini-pro:generateContent?key=b&alt=sse"
         "POST" [("content-type", "application/json")] (Some "{}")).
Proof.
  destruct (upstream_call_target (platform_with (Fulfilled json_200))
              (example_runtime None (Fulfilled fetched_404)) example_request) as [H _].
  rewrite (H "/v1beta/models/gemini-pro" eq_refl eq_refl). reflexivity.
Defined.

Lemma no_control_app (a b : string) :
  no_control (a ++ b) = no_control a && no_control b.
Proof.
  induction a as [ | c a IH ]; simpl; [ reflexivity | ].
  rewrite IH, andb_assoc. reflexivity.
Qed.

Lemma escape_char_no_control (c : ascii) : no_control (escape_char c) = true.
Proof. destruct c as [[] [] [] [] [] [] [] []]; reflexivity. Qed.

Lemma quote_no_control (s : string) : no_control (quote s) = true.
Proof.
  unfold quote. rewrite !no_control_app. simpl. rewrite andb_true_r.
  induction s as [ | c s IH ]; simpl; [ reflexivity | ].
  rewrite no_control_app, escape_char_no_control, IH. reflexivity.
Qed.

Lemma of_number_no_control (n : Z) : no_control (of_number n) = true.
Proof.
  assert (H : forall d, no_control (NilEmpty.string_of_uint d) = true)
    by (induction d; simpl; auto).
  assert (H' : forall d, no_control (NilZero.string_of_uint d) = true)
    by (destruct d; try apply H; reflexivity).
  unfold of_number, NilZero.string_of_int.
  destruct (Z.to_int n); simpl; rewrite ?H'; reflexivity.
Qed.

Lemma stringify_no_control (v : JSON) : no_control (stringify v) = true.
Proof.
  induction v as [ | b | n | s | items IH | members IH ] using JSON_induction.
  - reflexivity.
  - destruct b; reflexivity.
  - apply of_number_no_control.
  - apply quote_no_control.
  - cbn [stringify]. rewrite !no_control_app.
    change (no_control "[") with true. change (no_control "]") with true.
    rewrite andb_true_r. cbn [andb].
    induction IH as [ | x rest Hx _ IHrest ]; [ reflexivity | ].
    destruct rest as [ | y rest ]; [ exact Hx | ].
    cbn -[stringify] in *.
    rewrite no_control_app, Hx. cbn -[stringify]. exact IHrest.
  - cbn [stringify]. rewrite !no_control_app.
    change (no_control "{") with true. change (no_control "}") with true.
    rewrite andb_true_r. cbn [andb].
    induction IH as [ | [k x] rest Hx _ IHrest ]; [ reflexivity | ].
    cbn [snd] in Hx.
    destruct rest as [ | y rest ].
    + cbn -[stringify quote].
      rewrite no_control_app, quote_no_control. cbn -[stringify]. exact Hx.
    + cbn -[stringify quote] in *.
      rewrite no_control_app, quote_no_control. cbn -[stringify quote].
      rewrite no_control_app, Hx. cbn -[stringify quote]. exact IHrest.
Qed.

(** X13.  A frame built from a JSON value (a heartbeat, an error frame
    with whatever text the upstream or the error supplied, the frame of
    a JSON body) is one event of the stream: [data: ], then one line in
    which no control character occurs, so neither a line feed nor a
    carriage return, then the two line feeds that end the event. *)
Theorem json_frame_is_one_event (v : JSON) (response : Response)
    (errorText message : string) :
  frame (stringify v) = "data: " ++ stringify v ++ LF ++ LF /\
  no_control (stringify v) = true /\
  occurs "010" (stringify v) = false /\
  occurs "013" (stringify v) = false /\
  no_control (stringify heartbeatData) = true /\
  no_control (stringify (apiErrorData response errorText)) = true /\
  no_control (stringify (internalErrorData message)) = true.
Proof.
  assert (H : forall s c, no_control s = true -> Nat.ltb (nat_of_ascii c) 32 = true ->
                          occurs c s = false).
  { induction s as [ | c' s IH ]; intros c Hs Hc; [ reflexivity | ].
    cbn [no_control occurs] in *. apply andb_true_iff in Hs as [Hc' Hs].
    rewrite (IH c Hs Hc), orb_false_r.
    apply Ascii.eqb_neq. intros ->.
    apply Nat.leb_le in Hc'. apply Nat.ltb_lt in Hc. lia. }
  repeat split; try apply stringify_no_control;
    apply H; try apply stringify_no_control; reflexivity.
Qed.

(* ================================================================== *)
(** ** A cancellation while the upstream call is pending *)
(* ================================================================== *)







